(** * Kernel_Monitor: the /proc/kernel_monitor provider and its polling client

    A shallow embedding of [src/kernel_monitor.c] (the kernel module whose
    [proc_show] renders one snapshot per read) and of [src/monitor_app.c]
    (the user-space client: [read_kernel_data], [display_data],
    [watch_mode], [main]), followed by the properties the specification
    states about them.

    Conventions.
    - Text is a list of bytes ([list ascii]); [str] turns a literal into it.
    - [unsigned long], [u64] and [size_t] are 64 bits wide (LP64); [int] is
      32 bits.  Arithmetic the C code performs on them is written with its
      wrap-around ([wrap64]).
    - Effects are threaded through a state monad whose failure ([None])
      stands for undefined behaviour of the C program (a store outside an
      array, a read through a dangling pointer, an unterminated string
      handed to [printf]). *)

From Stdlib Require Import ZArith Ascii String DecimalString DecimalZ Lia.
From stdpp Require Import base option list gmap.

Local Open Scope Z_scope.

(* ================================================================== *)
(** * Part I: definitions                                              *)
(* ================================================================== *)

(** ** Text and [printf] conversions *)

Abbreviation text := (list ascii).

Definition str (s : string) : text := list_ascii_of_string s.

Definition NUL : ascii := "000"%char.
Definition LF : ascii := "010"%char.
Definition ESC : ascii := "027"%char.
Definition SP : ascii := " "%char.

(** [%d], and [%lu] or [%llu]: decimal digits, a leading minus sign for a
    negative [int].  [fmt_u] is given the value of the unsigned argument,
    between 0 and 2^64 - 1. *)
Definition fmt_d (z : Z) : text :=
  str (NilEmpty.string_of_int (Z.to_int z)).

Definition fmt_u (z : Z) : text :=
  str (NilEmpty.string_of_uint (N.to_uint (Z.to_N z))).

(** [%-Ns], [%-Nd], [%-Nlu]: left-justified in a field of at least [width]
    bytes, padded with spaces on the right, never truncated. *)
Definition left_justify (width : nat) (s : text) : text :=
  s ++ replicate (width - length s)%nat SP.

(** The bytes of a C string stored in [buf]: everything before the first
    NUL.  [None] when [buf] holds no NUL (the read would run off the
    array). *)
Fixpoint c_string (buf : text) : option text :=
  match buf with
  | [] => None
  | c :: rest =>
      if Ascii.eqb c NUL then Some []
      else match c_string rest with
           | Some s => Some (c :: s)
           | None => None
           end
  end.

(** [p] is an initial segment of [s]. *)
Fixpoint is_prefix (p s : text) : bool :=
  match p, s with
  | [], _ => true
  | a :: p', b :: s' => Ascii.eqb a b && is_prefix p' s'
  | _ :: _, [] => false
  end.

(** [hay] contains [needle] as a contiguous run of bytes. *)
Definition contains (hay needle : text) : Prop :=
  ∃ before after, hay = before ++ needle ++ after.

(** ** Machine integers *)

Definition wrap64 (z : Z) : Z := z mod 2 ^ 64.

(** Conversion to a 32-bit [int] (two's complement truncation). *)
Definition to_int32 (z : Z) : Z := (z + 2 ^ 31) mod 2 ^ 32 - 2 ^ 31.

(** ** A state monad with failure *)

Definition M (S A : Type) : Type := S → option (A * S).

Definition ret {S A} (a : A) : M S A := λ s, Some (a, s).

Definition bind {S A B} (k : A → M S B) (c : M S A) : M S B :=
  λ s, match c s with
       | Some (a, s') => k a s'
       | None => None
       end.

Definition fault {S A} : M S A := λ _, None.

(** [x ← c; k] and [c;; k] are stdpp's notations for [bind]. *)
#[global] Instance M_ret {S} : MRet (M S) := @ret S.
#[global] Instance M_bind {S} : MBind (M S) := @bind S.

(* ------------------------------------------------------------------ *)
(** ** src/kernel_monitor.c                                            *)
(* ------------------------------------------------------------------ *)

Module kernel_monitor.

Definition PROC_NAME : text := str "kernel_monitor".
Definition MODULE_VERSION : text := str "1.0.0".

(** *** Kernel objects the module reads *)

(** [struct mm_struct]: the two fields that matter here.  [mm_users] is an
    [atomic_t]; its count stays far from the ends of its range and is kept
    as a plain integer. *)
Record mm_struct := {
  total_vm : Z;   (* unsigned long, in pages *)
  mm_users : Z    (* reference count *)
}.

(** [struct task_struct]: [comm] is the task name as a C string (the bytes
    before its terminator), [mm] the address of the task's memory
    descriptor, [None] for a NULL pointer. *)
Record task_struct := {
  comm : text;
  pid : Z;
  PF_KTHREAD : bool;
  mm : option N
}.

(** [kcpustat_cpu(0).cpustat], the three counters read. *)
Record kernel_cpustat := {
  CPUTIME_USER : Z;
  CPUTIME_SYSTEM : Z;
  CPUTIME_IDLE : Z
}.

(** [struct sysinfo] as filled by [si_meminfo]. *)
Record sysinfo := {
  totalram : Z;
  freeram : Z;
  sharedram : Z;
  bufferram : Z
}.

(** What one call of [proc_show] observes and does not change. *)
Record kernel := {
  kcpustat_cpu0 : kernel_cpustat;
  si_meminfo : sysinfo;
  tasks : list task_struct   (* in [for_each_process] order *)
}.

(** *** State threaded through [proc_show] *)

Inductive kevent :=
| KPrintf (chunk : text)   (* one [seq_printf] call and the bytes it appends *)
| KMmGet (p : N)           (* [get_task_mm] took a reference on [p] *)
| KMmRead (p : N)          (* [mm->total_vm] was read through [p] *)
| KMmPut (p : N).          (* [mmput] dropped a reference on [p] *)

Record kstate := {
  heap : gmap N mm_struct;   (* the live memory descriptors, by address *)
  ktrace : list kevent       (* what happened, oldest first *)
}.

Abbreviation K := (M kstate).

Definition emit (e : kevent) : K unit :=
  λ st, Some (tt, {| heap := heap st; ktrace := ktrace st ++ [e] |}).

(** [seq_printf(m, ...)] appends to the seq_file.  (When the text outgrows
    the seq_file's buffer the kernel enlarges it and calls [proc_show]
    again; the run modelled is the one that fits.) *)
Definition seq_printf (chunk : text) : K unit := emit (KPrintf chunk).

(** [get_task_mm]: NULL for a task without a descriptor and for a kernel
    thread; otherwise one more user of the descriptor. *)
Definition get_task_mm (task : task_struct) : K (option N) :=
  match mm task with
  | None => ret None
  | Some p =>
      if PF_KTHREAD task then ret None
      else λ st,
        match heap st !! p with
        | None => None
        | Some d =>
            Some (Some p,
                  {| heap := <[p := {| total_vm := total_vm d;
                                       mm_users := mm_users d + 1 |}]> (heap st);
                     ktrace := ktrace st ++ [KMmGet p] |})
        end
  end.

(** [mmput]: one user fewer; the descriptor is freed when none is left. *)
Definition mmput (p : N) : K unit :=
  λ st,
    match heap st !! p with
    | None => None
    | Some d =>
        let users := mm_users d - 1 in
        Some (tt,
              {| heap := if users =? 0 then delete p (heap st)
                         else <[p := {| total_vm := total_vm d;
                                        mm_users := users |}]> (heap st);
                 ktrace := ktrace st ++ [KMmPut p] |})
    end.

(** [mm->total_vm]. *)
Definition read_total_vm (p : N) : K Z :=
  λ st,
    match heap st !! p with
    | None => None
    | Some d =>
        Some (total_vm d,
              {| heap := heap st; ktrace := ktrace st ++ [KMmRead p] |})
    end.

(** The text of the seq_file after a run: the chunks in call order. *)
Definition seq_chunks (tr : list kevent) : list text :=
  omap (λ e, match e with KPrintf c => Some c | _ => None end) tr.

Definition seq_text (tr : list kevent) : text := concat (seq_chunks tr).

(** *** [proc_show] *)

(** The format ["%-20s %-8d %-12lu\n"] of a table row. *)
Definition row_format (name : text) (pid : Z) (kb : Z) : text :=
  left_justify 20 name ++ [SP] ++
  left_justify 8 (fmt_d pid) ++ [SP] ++
  left_justify 12 (fmt_u kb) ++ [LF].

(** The body of the [for_each_process] loop; [total_processes] is the
    function's local counter. *)
Definition proc_show_task (task : task_struct) (total_processes : Z) : K Z :=
  mm ← get_task_mm task;
  match mm with
  | Some mm =>
      vm ← read_total_vm mm;
      seq_printf (row_format (comm task) (pid task) (wrap64 (vm * 4)));;
      mmput mm;;
      ret (wrap64 (total_processes + 1))
  | None => ret total_processes
  end.

Fixpoint for_each_process (ts : list task_struct) (total_processes : Z) : K Z :=
  match ts with
  | [] => ret total_processes
  | task :: rest =>
      n ← proc_show_task task total_processes;
      for_each_process rest n
  end.

Definition proc_show (k : kernel) : K Z :=
  let total_processes := 0 in
  seq_printf (str "===========================================" ++ [LF]);;
  seq_printf (str "     Linux Kernel Monitor v" ++ MODULE_VERSION ++ [LF]);;
  seq_printf (str "===========================================" ++ [LF; LF]);;
  let user_time := CPUTIME_USER (kcpustat_cpu0 k) in
  let system_time := CPUTIME_SYSTEM (kcpustat_cpu0 k) in
  let idle_time := CPUTIME_IDLE (kcpustat_cpu0 k) in
  seq_printf (str "CPU Statistics (CPU 0):" ++ [LF]);;
  seq_printf (str "  User Time:   " ++ fmt_u user_time ++ str " ns" ++ [LF]);;
  seq_printf (str "  System Time: " ++ fmt_u system_time ++ str " ns" ++ [LF]);;
  seq_printf (str "  Idle Time:   " ++ fmt_u idle_time ++ str " ns" ++ [LF; LF]);;
  let mem_info := si_meminfo k in
  seq_printf (str "Memory Statistics:" ++ [LF]);;
  seq_printf (str "  Total RAM:   " ++ fmt_u (totalram mem_info) ++ str " pages (" ++
              fmt_u (wrap64 (totalram mem_info * 4) / 1024) ++ str " MB)" ++ [LF]);;
  seq_printf (str "  Free RAM:    " ++ fmt_u (freeram mem_info) ++ str " pages (" ++
              fmt_u (wrap64 (freeram mem_info * 4) / 1024) ++ str " MB)" ++ [LF]);;
  seq_printf (str "  Shared RAM:  " ++ fmt_u (sharedram mem_info) ++ str " pages" ++ [LF]);;
  seq_printf (str "  Buffer RAM:  " ++ fmt_u (bufferram mem_info) ++ str " pages" ++ [LF; LF]);;
  seq_printf (str "Process Information:" ++ [LF]);;
  seq_printf (left_justify 20 (str "Name") ++ [SP] ++
              left_justify 8 (str "PID") ++ [SP] ++
              left_justify 12 (str "Memory (KB)") ++ [LF]);;
  seq_printf (str "-------------------------------------------" ++ [LF]);;
  total_processes ← for_each_process (tasks k) total_processes;
  seq_printf ([LF] ++ str "Total Processes: " ++ fmt_u total_processes ++ [LF]);;
  ret 0.

(** *** Loading and unloading the module *)

Definition ENOMEM : Z := 12.

(** The callbacks [proc_fops] names. *)
Inductive file_callback :=
| cb_proc_open        (* [proc_open]: [single_open(file, proc_show, NULL)] *)
| cb_seq_read
| cb_seq_lseek
| cb_single_release.

(** [struct proc_ops]: the members [proc_fops] sets, and [proc_write],
    which it leaves NULL. *)
Record proc_ops := {
  proc_open : option file_callback;
  proc_read : option file_callback;
  proc_lseek : option file_callback;
  proc_release : option file_callback;
  proc_write : option file_callback
}.

Definition proc_fops : proc_ops :=
  {| proc_open := Some cb_proc_open;
     proc_read := Some cb_seq_read;
     proc_lseek := Some cb_seq_lseek;
     proc_release := Some cb_single_release;
     proc_write := None |}.

(** [struct proc_dir_entry]: permission bits and callbacks. *)
Record proc_dir_entry := {
  pde_mode : Z;
  pde_ops : proc_ops
}.

Inductive loglevel := KERN_ERR | KERN_INFO.

(** The root of procfs, by entry name, and the kernel log. *)
Record procfs_state := {
  procfs : gmap text proc_dir_entry;
  dmesg : list (loglevel * text)
}.

Definition printk (level : loglevel) (line : text) : M procfs_state unit :=
  λ s, Some (tt, {| procfs := procfs s; dmesg := dmesg s ++ [(level, line)] |}).

Definition pr_err : text → M procfs_state unit := printk KERN_ERR.
Definition pr_info : text → M procfs_state unit := printk KERN_INFO.

(** [proc_create(name, mode, NULL, ops)]: NULL when the entry cannot be
    allocated ([memory] says whether it can) and when the name is taken. *)
Definition proc_create (memory : bool) (name : text) (mode : Z) (ops : proc_ops)
  : M procfs_state (option proc_dir_entry) :=
  λ s,
    if memory then
      match procfs s !! name with
      | Some _ => Some (None, s)
      | None =>
          let entry := {| pde_mode := mode; pde_ops := ops |} in
          Some (Some entry,
                {| procfs := <[name := entry]> (procfs s); dmesg := dmesg s |})
      end
    else Some (None, s).

(** [remove_proc_entry(name, NULL)]. *)
Definition remove_proc_entry (name : text) : M procfs_state unit :=
  λ s, Some (tt, {| procfs := delete name (procfs s); dmesg := dmesg s |}).

(** Mode 0444, in octal. *)
Definition S_IRUGO : Z := 4 * 64 + 4 * 8 + 4.

Definition kernel_monitor_init (memory : bool) : M procfs_state Z :=
  entry ← proc_create memory PROC_NAME S_IRUGO proc_fops;
  match entry with
  | None =>
      pr_err (str "Kernel Monitor: Failed to create /proc/" ++ PROC_NAME ++ [LF]);;
      ret (- ENOMEM)
  | Some _ =>
      pr_info (str "Kernel Monitor: Module loaded successfully" ++ [LF]);;
      pr_info (str "Kernel Monitor: Data available at /proc/" ++ PROC_NAME ++ [LF]);;
      ret 0
  end.

Definition kernel_monitor_exit : M procfs_state unit :=
  remove_proc_entry PROC_NAME;;
  pr_info (str "Kernel Monitor: Module unloaded successfully" ++ [LF]).

End kernel_monitor.

(* ------------------------------------------------------------------ *)
(** ** src/monitor_app.c                                               *)
(* ------------------------------------------------------------------ *)

Module monitor_app.

Definition PROC_PATH : text := str "/proc/kernel_monitor".
Definition BUFFER_SIZE : Z := 4096.
Definition APP_VERSION : text := str "1.0.0".

Definition COLOR_RESET : text := ESC :: str "[0m".
Definition COLOR_RED : text := ESC :: str "[31m".
Definition COLOR_GREEN : text := ESC :: str "[32m".
Definition COLOR_YELLOW : text := ESC :: str "[33m".
Definition COLOR_BLUE : text := ESC :: str "[34m".
Definition COLOR_BOLD : text := ESC :: str "[1m".

Definition EXIT_SUCCESS : Z := 0.
Definition EXIT_FAILURE : Z := 1.
Definition EBADF : Z := 9.

(** *** The platform under the client *)

(** How /proc/kernel_monitor behaves at one [open]: the call fails; or it
    succeeds and the following [read] fails; or it succeeds and [read]
    copies the provider's text from its start, as many bytes as were asked
    for and are there (the seq_file behind the entry). *)
Inductive endpoint :=
| OpenFails (err : Z)
| ReadFails (fd : N) (err : Z)
| Serves (fd : N) (provider_text : text).

Inductive open_file :=
| Broken (err : Z)
| Content (provider_text : text).

Record platform := {
  endpoint_at : nat → endpoint;   (* the entry at the n-th [open], n = 0, 1, ... *)
  stack_at : nat → text;          (* what the fresh [buffer] of the activation
                                     doing the n-th [open] holds *)
  strerror : Z → text;
  getopt_diag : text → text       (* the C library's complaint about an argument *)
}.

Inductive event :=
| Stdout (s : text)
| Stderr (s : text)
| SysOpen (path : text)
| SysRead (fd : Z) (count : Z)
| SysClose (fd : Z)
| SysSleep (seconds : Z).

Record world := {
  trace : list event;        (* oldest first *)
  opens : nat;               (* [open] calls made so far *)
  errno : Z;
  fds : gmap N open_file;    (* the descriptor table *)
  optind : nat;              (* <getopt.h> *)
  nextchar : text;           (* rest of the cluster of short options being scanned *)
  optarg : option text       (* <getopt.h>; [None] is NULL *)
}.

(** A process as [execve] leaves it. *)
Definition boot : world :=
  {| trace := []; opens := 0; errno := 0; fds := ∅;
     optind := 1; nextchar := []; optarg := None |}.

Abbreviation IO := (M world).

Definition emit (e : event) : IO unit :=
  λ w, Some (tt, {| trace := trace w ++ [e]; opens := opens w; errno := errno w;
                    fds := fds w; optind := optind w; nextchar := nextchar w;
                    optarg := optarg w |}).

Definition gets {A} (field : world → A) : IO A := λ w, Some (field w, w).

Definition set_io (op : nat) (e : Z) (t : gmap N open_file) : IO unit :=
  λ w, Some (tt, {| trace := trace w; opens := op; errno := e; fds := t;
                    optind := optind w; nextchar := nextchar w;
                    optarg := optarg w |}).

Definition set_getopt (ind : nat) (next : text) (arg : option text) : IO unit :=
  λ w, Some (tt, {| trace := trace w; opens := opens w; errno := errno w;
                    fds := fds w; optind := ind; nextchar := next;
                    optarg := arg |}).

Definition printf (s : text) : IO unit := emit (Stdout s).
Definition fprintf_stderr (s : text) : IO unit := emit (Stderr s).

(** [unsigned int sleep(unsigned int seconds)]: an [int] argument is
    converted to [unsigned int]. *)
Definition sleep (seconds : Z) : IO unit := emit (SysSleep (seconds mod 2 ^ 32)).

(** [printf] of a [%s] argument held in an array. *)
Definition string_arg (buf : text) : IO text :=
  match c_string buf with
  | Some s => ret s
  | None => fault
  end.

(** [buf[i] = c]. *)
Definition store (buf : text) (i : Z) (c : ascii) : IO text :=
  if (0 <=? i) && (i <? Z.of_nat (length buf))
  then ret (<[Z.to_nat i := c]> buf)
  else fault.

Section Platform.

Variable P : platform.

(** A local [char buffer[size]]: [size] bytes of the stack, holding
    whatever was there. *)
Definition local_array (size : Z) : IO text :=
  n ← gets opens;
  ret (resize (Z.to_nat size) NUL (stack_at P n)).

Definition sys_open (path : text) : IO Z :=
  emit (SysOpen path);;
  n ← gets opens;
  e0 ← gets errno;
  table ← gets fds;
  match endpoint_at P n with
  | OpenFails e => set_io (S n) e table;; ret (-1)
  | ReadFails fd e => set_io (S n) e0 (<[fd := Broken e]> table);; ret (Z.of_N fd)
  | Serves fd t => set_io (S n) e0 (<[fd := Content t]> table);; ret (Z.of_N fd)
  end.

(** [read(fd, buf, count)]: the result and what [buf] holds afterwards. *)
Definition sys_read (fd : Z) (buf : text) (count : Z) : IO (Z * text) :=
  emit (SysRead fd count);;
  n ← gets opens;
  table ← gets fds;
  match (if fd <? 0 then None else table !! Z.to_N fd) with
  | None => set_io n EBADF table;; ret (-1, buf)
  | Some (Broken e) => set_io n e table;; ret (-1, buf)
  | Some (Content t) =>
      let len := Nat.min (Z.to_nat count) (length t) in
      if (len <=? length buf)%nat
      then ret (Z.of_nat len, take len t ++ drop len buf)
      else fault
  end.

Definition close (fd : Z) : IO unit :=
  emit (SysClose fd);;
  n ← gets opens;
  e0 ← gets errno;
  table ← gets fds;
  if fd <? 0 then set_io n EBADF table
  else set_io n e0 (delete (Z.to_N fd) table).

(** *** [print_usage], [print_version] *)

Definition print_usage (prog_name : text) : IO unit :=
  printf (str "Usage: " ++ prog_name ++ str " [OPTIONS]" ++ [LF]);;
  printf (str "Read and display Linux kernel monitoring data" ++ [LF; LF]);;
  printf (str "Options:" ++ [LF]);;
  printf (str "  -h, --help       Display this help message" ++ [LF]);;
  printf (str "  -v, --version    Display version information" ++ [LF]);;
  printf (str "  -r, --raw        Display raw output without formatting" ++ [LF]);;
  printf (str "  -w, --watch SEC  Continuously display data every SEC seconds" ++ [LF]);;
  printf ([LF] ++ str "Examples:" ++ [LF]);;
  printf (str "  " ++ prog_name ++ str "              Display current system statistics" ++ [LF]);;
  printf (str "  " ++ prog_name ++ str " -w 2         Update display every 2 seconds" ++ [LF]).

Definition print_version : IO unit :=
  printf (str "Kernel Monitor Application v" ++ APP_VERSION ++ [LF]);;
  printf (str "Copyright (C) 2025 Mahmoud Ezzat" ++ [LF]).

(** *** [read_kernel_data] *)

(** Returns the C function's result together with the contents of the
    caller's [buffer] afterwards. *)
Definition read_kernel_data (buffer : text) (size : Z) : IO (Z * text) :=
  fd ← sys_open PROC_PATH;
  if fd <? 0 then
    e ← gets errno;
    fprintf_stderr (COLOR_RED ++ str "Error: Failed to open " ++ PROC_PATH ++
                    str ": " ++ strerror P e ++ [LF] ++ COLOR_RESET);;
    fprintf_stderr (str "Make sure the kernel module is loaded (insmod kernel_monitor.ko)" ++ [LF]);;
    ret (-1, buffer)
  else
    r ← sys_read fd buffer (wrap64 (size - 1));
    let bytes_read := r.1 in
    let buffer := r.2 in
    if bytes_read <? 0 then
      e ← gets errno;
      fprintf_stderr (COLOR_RED ++ str "Error: Failed to read from " ++ PROC_PATH ++
                      str ": " ++ strerror P e ++ [LF] ++ COLOR_RESET);;
      close fd;;
      ret (-1, buffer)
    else
      buffer ← store buffer bytes_read NUL;
      close fd;;
      ret (bytes_read, buffer).

(** *** [display_data] *)

Definition display_data (raw : Z) : IO unit :=
  buffer ← local_array BUFFER_SIZE;
  r ← read_kernel_data buffer BUFFER_SIZE;
  let bytes_read := r.1 in
  let buffer := r.2 in
  if bytes_read <? 0 then ret tt
  else if negb (raw =? 0) then
    s ← string_arg buffer;
    printf s
  else
    printf (ESC :: str "[2J" ++ ESC :: str "[H");;
    printf (COLOR_BOLD ++ COLOR_BLUE);;
    printf (str "╔════════════════════════════════════════════════════════╗" ++ [LF]);;
    printf (str "║         Linux Kernel Monitor - Live View              ║" ++ [LF]);;
    printf (str "╚════════════════════════════════════════════════════════╝" ++ [LF]);;
    printf COLOR_RESET;;
    s ← string_arg buffer;
    printf ([LF] ++ s ++ [LF]).

(** *** [watch_mode] *)

(** The first [frames] turns of [while (1)]. *)
Fixpoint watch_loop (frames : nat) (interval : Z) : IO unit :=
  match frames with
  | O => ret tt
  | S n =>
      display_data 0;;
      sleep interval;;
      watch_loop n interval
  end.

(** [watch_mode] does not return; this is its run up to the end of the
    [frames]-th turn of the loop. *)
Definition watch_mode (frames : nat) (interval : Z) : IO unit :=
  printf (COLOR_GREEN ++ str "Starting watch mode (updating every " ++
          fmt_d interval ++ str " seconds)..." ++ [LF]);;
  printf (str "Press Ctrl+C to exit" ++ [LF] ++ COLOR_RESET);;
  sleep 2;;
  watch_loop frames interval.

(** *** The C library: [atoi] and [getopt_long] *)

Definition chr (c : ascii) : Z := Z.of_nat (nat_of_ascii c).

Definition isspace (c : ascii) : bool :=
  (chr c =? 32) || ((9 <=? chr c) && (chr c <=? 13)).

Definition isdigit (c : ascii) : bool :=
  (chr "0" <=? chr c) && (chr c <=? chr "9").

Fixpoint skip_spaces (s : text) : text :=
  match s with
  | c :: rest => if isspace c then skip_spaces rest else s
  | [] => []
  end.

(** The value of the longest run of decimal digits at the head of [s],
    continuing from [acc]. *)
Fixpoint digits_value (acc : Z) (s : text) : Z :=
  match s with
  | c :: rest =>
      if isdigit c then digits_value (acc * 10 + (chr c - chr "0")) rest
      else acc
  | [] => acc
  end.

(** [strtol(s, NULL, 10)]: blanks, an optional sign, digits; the result
    is clamped to the range of [long]. *)
Definition strtol (s : text) : Z :=
  match skip_spaces s with
  | c :: rest =>
      if Ascii.eqb c "-" then Z.max (- digits_value 0 rest) (- 2 ^ 63)
      else if Ascii.eqb c "+" then Z.min (digits_value 0 rest) (2 ^ 63 - 1)
      else Z.min (digits_value 0 (c :: rest)) (2 ^ 63 - 1)
  | [] => 0
  end.

(** [atoi(s)] is [(int) strtol(s, NULL, 10)]. *)
Definition atoi (s : text) : Z := to_int32 (strtol s).

Inductive has_arg_t := no_argument | required_argument.

(** [struct option]; the [flag] member is 0 in every entry used here, so
    [getopt_long] returns [val]. *)
Record option_t := {
  name : text;
  has_arg : has_arg_t;
  val : ascii
}.

(** What the short-option string says about [c]. *)
Fixpoint short_lookup (c : ascii) (optstring : text) : option has_arg_t :=
  match optstring with
  | [] => None
  | o :: rest =>
      if Ascii.eqb o ":" then short_lookup c rest
      else if Ascii.eqb o c then
        Some (match rest with
              | colon :: _ => if Ascii.eqb colon ":" then required_argument
                              else no_argument
              | [] => no_argument
              end)
      else short_lookup c rest
  end.

Definition text_eqb (a b : text) : bool := is_prefix a b && is_prefix b a.

(** The long option [nm] stands for: an exact match, or else the only
    entry it abbreviates. *)
Definition find_long (nm : text) (longopts : list option_t) : option option_t :=
  match filter (λ o, text_eqb nm (name o) = true) longopts with
  | o :: _ => Some o
  | [] =>
      match filter (λ o, is_prefix nm (name o) = true) longopts with
      | [o] => Some o
      | _ => None
      end
  end.

(** [--name=value] split at the first [=]. *)
Fixpoint split_eq (s : text) : text * option text :=
  match s with
  | [] => ([], None)
  | c :: rest =>
      if Ascii.eqb c "=" then ([], Some rest)
      else let r := split_eq rest in (c :: r.1, r.2)
  end.

(** An argument that is not an option: it does not start with [-], or it
    is [-] alone. *)
Definition nonoption (arg : text) : bool :=
  match arg with
  | c :: _ :: _ => negb (Ascii.eqb c "-")
  | _ => true
  end.

(** The index of the first option at or after [ind]; arguments that are
    not options are passed over (GNU [getopt] moves them to the end). *)
Fixpoint next_option (pending : list text) (ind : nat) : nat :=
  match pending with
  | arg :: rest => if nonoption arg then next_option rest (S ind) else ind
  | [] => ind
  end.

(** One short option [c] out of a cluster whose remainder is [rest];
    [optind] already points past the cluster. *)
Definition getopt_short (argv : list text) (optstring : text)
    (c : ascii) (rest : text) : IO Z :=
  ind ← gets optind;
  match short_lookup c optstring with
  | None =>
      set_getopt ind rest None;;
      fprintf_stderr (getopt_diag P [c]);;
      ret (chr "?")
  | Some no_argument =>
      set_getopt ind rest None;;
      ret (chr c)
  | Some required_argument =>
      match rest with
      | _ :: _ => set_getopt ind [] (Some rest);; ret (chr c)
      | [] =>
          match argv !! ind with
          | Some arg => set_getopt (S ind) [] (Some arg);; ret (chr c)
          | None =>
              set_getopt ind [] None;;
              fprintf_stderr (getopt_diag P [c]);;
              ret (chr "?")
          end
      end
  end.

(** A long option; [body] is the argument without its leading [--] and
    [ind] the index after it. *)
Definition getopt_long_option (argv : list text) (longopts : list option_t)
    (body : text) (ind : nat) : IO Z :=
  let nm := (split_eq body).1 in
  let value := (split_eq body).2 in
  match find_long nm longopts with
  | None =>
      set_getopt ind [] None;;
      fprintf_stderr (getopt_diag P body);;
      ret (chr "?")
  | Some o =>
      match has_arg o, value with
      | no_argument, None => set_getopt ind [] None;; ret (chr (val o))
      | no_argument, Some _ =>
          set_getopt ind [] None;;
          fprintf_stderr (getopt_diag P body);;
          ret (chr "?")
      | required_argument, Some v =>
          set_getopt ind [] (Some v);; ret (chr (val o))
      | required_argument, None =>
          match argv !! ind with
          | Some arg => set_getopt (S ind) [] (Some arg);; ret (chr (val o))
          | None =>
              set_getopt ind [] None;;
              fprintf_stderr (getopt_diag P body);;
              ret (chr "?")
          end
      end
  end.

(** [getopt_long(argc, argv, optstring, longopts, NULL)]: the next option
    character, [?] for an error, -1 when the options are exhausted. *)
Definition getopt_long (argv : list text) (optstring : text)
    (longopts : list option_t) : IO Z :=
  next ← gets nextchar;
  match next with
  | c :: rest => getopt_short argv optstring c rest
  | [] =>
      ind ← gets optind;
      let ind := next_option (drop ind argv) ind in
      match argv !! ind with
      | None => set_getopt ind [] None;; ret (-1)
      | Some arg =>
          match arg with
          | _ :: d :: body =>
              if Ascii.eqb d "-" then
                match body with
                | [] => set_getopt (S ind) [] None;; ret (-1)
                | _ :: _ => getopt_long_option argv longopts body (S ind)
                end
              else
                set_getopt (S ind) [] None;;
                getopt_short argv optstring d body
          | _ => set_getopt ind [] None;; ret (-1)
          end
      end
  end.

(** *** [main] *)

Definition long_options : list option_t :=
  [ {| name := str "help";    has_arg := no_argument;       val := "h" |};
    {| name := str "version"; has_arg := no_argument;       val := "v" |};
    {| name := str "raw";     has_arg := no_argument;       val := "r" |};
    {| name := str "watch";   has_arg := required_argument; val := "w" |} ].

(** The [switch] in the option loop: [inl code] when it returns from
    [main], [inr (raw_mode, watch_interval)] when it breaks out to the
    next turn of the loop. *)
Definition main_switch (argv : list text) (opt : Z)
    (raw_mode watch_interval : Z) : IO (Z + Z * Z) :=
  if opt =? chr "h" then
    print_usage (default [] (argv !! 0%nat));;
    ret (inl EXIT_SUCCESS)
  else if opt =? chr "v" then
    print_version;;
    ret (inl EXIT_SUCCESS)
  else if opt =? chr "r" then
    ret (inr (1, watch_interval))
  else if opt =? chr "w" then
    arg ← gets optarg;
    match arg with
    | None => fault
    | Some arg =>
        let watch_interval := atoi arg in
        if watch_interval <=? 0 then
          fprintf_stderr (str "Error: Invalid watch interval" ++ [LF]);;
          ret (inl EXIT_FAILURE)
        else ret (inr (raw_mode, watch_interval))
    end
  else
    print_usage (default [] (argv !! 0%nat));;
    ret (inl EXIT_FAILURE).

(** The option loop; [fuel] bounds the number of [getopt_long] calls. *)
Fixpoint main_options (fuel : nat) (argv : list text)
    (raw_mode watch_interval : Z) : IO (Z + Z * Z) :=
  match fuel with
  | O => fault
  | S fuel =>
      opt ← getopt_long argv (str "hvrw:") long_options;
      if opt =? -1 then ret (inr (raw_mode, watch_interval))
      else
        r ← main_switch argv opt raw_mode watch_interval;
        match r with
        | inl code => ret (inl code)
        | inr vars => main_options fuel argv vars.1 vars.2
        end
  end.

(** Every [getopt_long] call but the last consumes a byte of a cluster or
    an argument, so this many calls suffice. *)
Definition getopt_fuel (argv : list text) : nat :=
  S (length argv + length (concat argv)).

(** [main]: [Some code] when it returns [code]; [None] when control is
    inside [watch_mode], which it never leaves ([frames] says how far
    that loop is followed). *)
Definition main (frames : nat) (argv : list text) : IO (option Z) :=
  r ← main_options (getopt_fuel argv) argv 0 0;
  match r with
  | inl code => ret (Some code)
  | inr vars =>
      let raw_mode := vars.1 in
      let watch_interval := vars.2 in
      if 0 <? watch_interval then
        watch_mode frames watch_interval;;
        ret None
      else
        display_data raw_mode;;
        ret (Some EXIT_SUCCESS)
  end.

End Platform.

End monitor_app.

(* ------------------------------------------------------------------ *)
(** ** Vocabulary of the statements                                    *)
(* ------------------------------------------------------------------ *)

(** [hay] contains [needle], decided by trying every position. *)
Fixpoint containsb (hay needle : text) : bool :=
  is_prefix needle hay ||
  match hay with
  | [] => false
  | _ :: hay' => containsb hay' needle
  end.

(** The bytes of [s] before its first NUL, all of [s] when it has none. *)
Fixpoint until_nul (s : text) : text :=
  match s with
  | [] => []
  | c :: rest => if Ascii.eqb c NUL then [] else c :: until_nul rest
  end.

Module snapshot.
Import kernel_monitor.

(** The descriptor [get_task_mm] hands out for a task, if any. *)
Definition mm_of (t : task_struct) : option N :=
  match mm t with
  | Some p => if PF_KTHREAD t then None else Some p
  | None => None
  end.

(** Every descriptor a task can hand out is live: it is in the heap and
    the task itself counts among its users. *)
Definition kernel_wf (h : gmap N mm_struct) (ts : list task_struct) : Prop :=
  ∀ t p, t ∈ ts → mm_of t = Some p → ∃ d, h !! p = Some d ∧ 1 ≤ mm_users d.

(** The tasks that get a row, with the descriptor read for each. *)
Definition entries (h : gmap N mm_struct) (ts : list task_struct)
  : list (task_struct * mm_struct) :=
  omap (λ t, p ← mm_of t; d ← h !! p; Some (t, d)) ts.

(** What one turn of the loop does for task [t]. *)
Definition task_events (h : gmap N mm_struct) (t : task_struct) : list kevent :=
  match mm_of t with
  | Some p =>
      match h !! p with
      | Some d => [KMmGet p; KMmRead p;
                   KPrintf (row_format (comm t) (pid t) (wrap64 (total_vm d * 4)));
                   KMmPut p]
      | None => []
      end
  | None => []
  end.

(** The chunks printed before the loop. *)
Definition header (k : kernel) : list text :=
  let cpu := kcpustat_cpu0 k in
  let mem := si_meminfo k in
  [ str "===========================================" ++ [LF];
    str "     Linux Kernel Monitor v1.0.0" ++ [LF];
    str "===========================================" ++ [LF; LF];
    str "CPU Statistics (CPU 0):" ++ [LF];
    str "  User Time:   " ++ fmt_u (CPUTIME_USER cpu) ++ str " ns" ++ [LF];
    str "  System Time: " ++ fmt_u (CPUTIME_SYSTEM cpu) ++ str " ns" ++ [LF];
    str "  Idle Time:   " ++ fmt_u (CPUTIME_IDLE cpu) ++ str " ns" ++ [LF; LF];
    str "Memory Statistics:" ++ [LF];
    str "  Total RAM:   " ++ fmt_u (totalram mem) ++ str " pages (" ++
      fmt_u (wrap64 (totalram mem * 4) / 1024) ++ str " MB)" ++ [LF];
    str "  Free RAM:    " ++ fmt_u (freeram mem) ++ str " pages (" ++
      fmt_u (wrap64 (freeram mem * 4) / 1024) ++ str " MB)" ++ [LF];
    str "  Shared RAM:  " ++ fmt_u (sharedram mem) ++ str " pages" ++ [LF];
    str "  Buffer RAM:  " ++ fmt_u (bufferram mem) ++ str " pages" ++ [LF; LF];
    str "Process Information:" ++ [LF];
    str "Name                 PID      Memory (KB) " ++ [LF];
    str "-------------------------------------------" ++ [LF] ].

Definition is_printf (e : kevent) : bool :=
  match e with KPrintf _ => true | _ => false end.

(** The memory-descriptor events of a trace, printing left out. *)
Definition mm_events (tr : list kevent) : list kevent :=
  filter (λ e, is_printf e = false) tr.

(** The example of the specification: CPU 0 and memory counters, and a
    process list whose only entry is ("bashd", 1234, 8192), that is a task
    of 2048 pages. *)
Definition bashd (p : N) : task_struct :=
  {| comm := str "bashd"; pid := 1234; PF_KTHREAD := false; mm := Some p |}.

Definition kthreadd : task_struct :=
  {| comm := str "kthreadd"; pid := 2; PF_KTHREAD := true; mm := None |}.

Definition example_cpu : kernel_cpustat :=
  {| CPUTIME_USER := 1000000000; CPUTIME_SYSTEM := 500000000;
     CPUTIME_IDLE := 8500000000 |}.

Definition example_mem : sysinfo :=
  {| totalram := 1048576; freeram := 262144; sharedram := 1024;
     bufferram := 2048 |}.

Definition bashd_kernel (cpu : kernel_cpustat) (mem : sysinfo) (p : N) : kernel :=
  {| kcpustat_cpu0 := cpu; si_meminfo := mem; tasks := [bashd p] |}.

Definition bashd_state (p : N) (users : Z) (tr : list kevent) : kstate :=
  {| heap := {[ p := {| total_vm := 2048; mm_users := users |} ]};
     ktrace := tr |}.

Definition example_kernel : kernel :=
  {| kcpustat_cpu0 := example_cpu; si_meminfo := example_mem;
     tasks := [kthreadd; bashd 1] |}.

(** The entry the module registers. *)
Definition monitor_entry : proc_dir_entry :=
  {| pde_mode := S_IRUGO; pde_ops := proc_fops |}.

(** The write permission bits, 0222 in octal. *)
Definition S_IWUGO : Z := 2 * 64 + 2 * 8 + 2.

(** A procfs that holds some other entry, and an empty log. *)
Definition other_procfs : procfs_state :=
  {| procfs := {[ str "uptime" := {| pde_mode := S_IRUGO; pde_ops := proc_fops |} ]};
     dmesg := [] |}.

(** A kernel with 85 tasks that share one descriptor. *)
Definition crowded_kernel : kernel :=
  {| kcpustat_cpu0 := example_cpu; si_meminfo := example_mem;
     tasks := replicate 85 (bashd 1) |}.

End snapshot.

Module client.
Import monitor_app.

Definition stdout_text (tr : list event) : text :=
  concat (omap (λ e, match e with Stdout s => Some s | _ => None end) tr).

Definition stderr_text (tr : list event) : text :=
  concat (omap (λ e, match e with Stderr s => Some s | _ => None end) tr).

(** The [read] calls of a trace. *)
Definition reads (tr : list event) : list event :=
  filter (λ e, match e with SysRead _ _ => true | _ => false end = true) tr.

(** The [open] calls of a trace. *)
Definition fetches (tr : list event) : list event :=
  filter (λ e, match e with SysOpen _ => true | _ => false end = true) tr.

(** The world [w] after the events [evs] and an update of the I/O fields. *)
Definition after (w : world) (evs : list event) (n : nat) (e : Z)
    (t : gmap N open_file) : world :=
  {| trace := trace w ++ evs; opens := n; errno := e; fds := t;
     optind := optind w; nextchar := nextchar w; optarg := optarg w |}.

(** What [read_kernel_data] writes to the error stream when [open], or
    [read], fails with error [e]. *)
Definition open_diagnostic (P : platform) (e : Z) : list event :=
  [ Stderr (COLOR_RED ++ str "Error: Failed to open /proc/kernel_monitor: " ++
            strerror P e ++ [LF] ++ COLOR_RESET);
    Stderr (str "Make sure the kernel module is loaded (insmod kernel_monitor.ko)" ++ [LF]) ].

Definition read_diagnostic (P : platform) (e : Z) : list event :=
  [ Stderr (COLOR_RED ++ str "Error: Failed to read from /proc/kernel_monitor: " ++
            strerror P e ++ [LF] ++ COLOR_RESET) ].

(** What the formatted view prints before the text: clear screen, cursor
    home, and the boxed title in bold blue. *)
Definition live_view : list text :=
  [ ESC :: str "[2J" ++ ESC :: str "[H";
    COLOR_BOLD ++ COLOR_BLUE;
    str "╔════════════════════════════════════════════════════════╗" ++ [LF];
    str "║         Linux Kernel Monitor - Live View              ║" ++ [LF];
    str "╚════════════════════════════════════════════════════════╝" ++ [LF];
    COLOR_RESET ].

(** What the client shows of a provider text [t]: the first 4095 bytes,
    up to a NUL if there is one. *)
Definition shown (t : text) : text := until_nul (take 4095 t).

(** The events of one [display_data] call that does the [n]-th [open]. *)
Definition fetch_events (P : platform) (raw : Z) (n : nat) : list event :=
  match endpoint_at P n with
  | OpenFails e => [SysOpen PROC_PATH] ++ open_diagnostic P e
  | ReadFails fd e =>
      [SysOpen PROC_PATH; SysRead (Z.of_N fd) 4095] ++ read_diagnostic P e ++
      [SysClose (Z.of_N fd)]
  | Serves fd t =>
      [SysOpen PROC_PATH; SysRead (Z.of_N fd) 4095; SysClose (Z.of_N fd)] ++
      (if raw =? 0 then map Stdout live_view ++ [Stdout ([LF] ++ shown t ++ [LF])]
       else [Stdout (shown t)])
  end.

(** The diagnostic of a fetch at an entry in state [ep]; [None] when the
    fetch succeeds. *)
Definition failure (P : platform) (ep : endpoint) : option (list event) :=
  match ep with
  | OpenFails e => Some (open_diagnostic P e)
  | ReadFails _ e => Some (read_diagnostic P e)
  | Serves _ _ => None
  end.

(** The events of [watch_mode] before its loop. *)
Definition watch_banner (interval : Z) : list event :=
  [ Stdout (COLOR_GREEN ++ str "Starting watch mode (updating every " ++
            fmt_d interval ++ str " seconds)..." ++ [LF]);
    Stdout (str "Press Ctrl+C to exit" ++ [LF] ++ COLOR_RESET);
    SysSleep 2 ].

(** What [getopt_long] has still to scan: the rest of the current cluster
    and the arguments from [optind] on, one unit per argument and per byte. *)
Definition weight (args : list text) : nat := (length args + length (concat args))%nat.

Definition pending (argv : list text) (w : world) : nat :=
  (length (nextchar w) + weight (drop (optind w) argv))%nat.

(** What a [getopt_long] call leaves behind, as far as the loop of [main]
    is concerned: at most [budget] units are left to scan, and the option
    [w] comes with its argument. *)
Definition scan_step (argv : list text) (budget : nat) (r : Z) (w' : world) : Prop :=
  (pending argv w' ≤ budget)%nat ∧ (r = chr "w" → is_Some (optarg w')).

(** The text [print_usage] prints. *)
Definition usage_text (prog_name : text) : text :=
  match print_usage prog_name boot with
  | Some (_, w) => stdout_text (trace w)
  | None => []
  end.

(** Sample platforms: the entry is absent (ENOENT); the entry serves a
    short text; the entry serves 5000 bytes. *)
Definition sample_strerror (e : Z) : text :=
  if e =? 2 then str "No such file or directory" else str "Input/output error".

Definition absent : platform :=
  {| endpoint_at := λ _, OpenFails 2;
     stack_at := λ _, [];
     strerror := sample_strerror;
     getopt_diag := λ arg, str "unrecognized option: " ++ arg ++ [LF] |}.

Definition serving (t : text) : platform :=
  {| endpoint_at := λ _, Serves 3 t;
     stack_at := λ _, str "left over";
     strerror := sample_strerror;
     getopt_diag := λ arg, str "unrecognized option: " ++ arg ++ [LF] |}.

Definition flaky : platform :=
  {| endpoint_at := λ n, match n with
                         | O => Serves 3 (str "snapshot")
                         | 1%nat => OpenFails 2
                         | _ => ReadFails 3 5
                         end;
     stack_at := λ _, str "left over";
     strerror := sample_strerror;
     getopt_diag := λ arg, str "unrecognized option: " ++ arg ++ [LF] |}.

Definition long_text : text := replicate 5000 "a"%char.

(** The descriptor table after a fetch at an entry in state [ep]: the
    descriptor [open] handed out, if any, is closed again. *)
Definition closed_table (ep : endpoint) (t : gmap N open_file) : gmap N open_file :=
  match ep with
  | OpenFails _ => t
  | ReadFails fd _ | Serves fd _ => delete fd t
  end.

(** The descriptor [open] hands out at an entry in state [ep] is not in
    use in table [t]. *)
Definition fresh_fd (ep : endpoint) (t : gmap N open_file) : Prop :=
  match ep with
  | OpenFails _ => True
  | ReadFails fd _ | Serves fd _ => t !! fd = None
  end.

(** The platform [P] with other bytes left on the stack. *)
Definition with_stack (P : platform) (garbage : nat → text) : platform :=
  {| endpoint_at := endpoint_at P; stack_at := garbage;
     strerror := strerror P; getopt_diag := getopt_diag P |}.

(** An event that only prints. *)
Definition is_print (e : event) : bool :=
  match e with Stdout _ | Stderr _ => true | _ => false end.

(** A computation that only prints: whenever it ends, its result meets
    [Q], no file was opened or closed, and the events added are prints. *)
Definition quiet {A} (c : IO A) (Q : A → Prop) : Prop :=
  ∀ w a w',
    c w = Some (a, w') →
    Q a ∧ opens w' = opens w ∧ fds w' = fds w ∧
    ∃ evs, trace w' = trace w ++ evs ∧ Forall (λ e, is_print e = true) evs.

(** A status [main] returns from inside its option loop. *)
Definition early_status (r : Z + Z * Z) : Prop :=
  match r with
  | inl code => code = EXIT_SUCCESS ∨ code = EXIT_FAILURE
  | inr _ => True
  end.

(** The text [print_version] prints. *)
Definition version_text : text :=
  str "Kernel Monitor Application v1.0.0" ++ [LF] ++
  str "Copyright (C) 2025 Mahmoud Ezzat" ++ [LF].

(** The frames of [watch_mode] from the first [open] on. *)
Definition watch_frames (P : platform) (interval : Z) (frames : nat) : list event :=
  flat_map (λ n, fetch_events P 0 n ++ [SysSleep interval]) (seq 0 frames).

End client.
(* ================================================================== *)
(** * Part II: properties                                              *)
(* ================================================================== *)

(** ** The monad *)

Lemma bind_run {S A B} (c : M S A) (k : A → M S B) (s : S) :
  (c ≫= k) s = match c s with Some (a, s') => k a s' | None => None end.
Proof. reflexivity. Qed.

Lemma ret_run {S A} (a : A) (s : S) : ret a s = Some (a, s).
Proof. reflexivity. Qed.

(** ** Text *)

Lemma wrap64_small z : 0 ≤ z < 2 ^ 64 → wrap64 z = z.
Proof. intros H. unfold wrap64. by apply Z.mod_small. Qed.

Lemma wrap64_succ n : wrap64 (wrap64 n + 1) = wrap64 (n + 1).
Proof. unfold wrap64. by rewrite Zplus_mod_idemp_l. Qed.

Lemma is_prefix_spec needle hay :
  is_prefix needle hay = true ↔ ∃ after, hay = needle ++ after.
Proof.
  revert hay. induction needle as [|a needle IH]; intros hay; simpl.
  - split; [intros _; by exists hay | done].
  - destruct hay as [|b hay].
    + split; [done | intros [after H]; discriminate].
    + rewrite andb_true_iff, IH, Ascii.eqb_eq. split.
      * intros [-> [after ->]]. by exists after.
      * intros [after H]. injection H as -> ->. eauto.
Qed.

Lemma containsb_spec hay needle :
  containsb hay needle = true ↔ contains hay needle.
Proof.
  unfold contains. induction hay as [|b hay IH]; simpl.
  - rewrite orb_false_r, is_prefix_spec. split.
    + intros [after H]. exists [], after. done.
    + intros (before & after & H). destruct before; simpl in H.
      * by exists after.
      * discriminate.
  - rewrite orb_true_iff, is_prefix_spec, IH. split.
    + intros [[after H] | (before & after & H)].
      * exists [], after. done.
      * exists (b :: before), after. by rewrite H.
    + intros (before & after & H). destruct before as [|c before]; simpl in H.
      * left. by exists after.
      * right. injection H as -> ->. by exists before, after.
Qed.

Lemma until_nul_id s : NUL ∉ s → until_nul s = s.
Proof.
  induction s as [|c s IH]; [done|]. intros H; simpl.
  apply not_elem_of_cons in H as [Hc Hs].
  destruct (Ascii.eqb_spec c NUL) as [->|_]; [done|]. by rewrite IH.
Qed.

(** ** The provider: what a run of [proc_show] does *)

Section provider.
Import kernel_monitor snapshot.

Lemma get_task_mm_none t st : mm_of t = None → get_task_mm t st = Some (None, st).
Proof.
  unfold mm_of, get_task_mm. destruct (mm t); [|done].
  by destruct (PF_KTHREAD t).
Qed.

Lemma get_task_mm_some t p d st :
  mm_of t = Some p → heap st !! p = Some d →
  get_task_mm t st =
    Some (Some p,
          {| heap := <[p := {| total_vm := total_vm d;
                               mm_users := mm_users d + 1 |}]> (heap st);
             ktrace := ktrace st ++ [KMmGet p] |}).
Proof.
  unfold mm_of, get_task_mm. destruct (mm t) as [q|]; [|done].
  destruct (PF_KTHREAD t); [done|]. intros [= ->] ->. done.
Qed.

(** One turn of the loop: the reference taken is given back, so the heap
    is as before. *)
Lemma proc_show_task_run t n st :
  (∀ p, mm_of t = Some p → ∃ d, heap st !! p = Some d ∧ 1 ≤ mm_users d) →
  proc_show_task t n st =
    Some (if mm_of t is Some _ then wrap64 (n + 1) else n,
          {| heap := heap st; ktrace := ktrace st ++ task_events (heap st) t |}).
Proof.
  intros Hlive. unfold proc_show_task, task_events. rewrite bind_run.
  destruct (mm_of t) as [p|] eqn:Hmm.
  - destruct (Hlive p eq_refl) as (d & Hd & Husers).
    rewrite (get_task_mm_some t p d st Hmm Hd), Hd.
    rewrite bind_run. unfold read_total_vm at 1. simpl.
    rewrite lookup_insert_eq. simpl.
    rewrite bind_run. unfold seq_printf, emit at 1. simpl.
    rewrite bind_run. unfold mmput at 1. simpl.
    rewrite lookup_insert_eq. simpl.
    replace (mm_users d + 1 - 1) with (mm_users d) by lia.
    destruct (Z.eqb_spec (mm_users d) 0) as [H0|_]; [lia|].
    rewrite ret_run. do 2 f_equal. f_equal.
    + rewrite insert_insert_eq. apply insert_id. rewrite Hd. by destruct d.
    + by rewrite <- !app_assoc.
  - rewrite (get_task_mm_none t st Hmm), ret_run, app_nil_r. by destruct st.
Qed.

Lemma entries_cons h t ts :
  entries h (t :: ts) =
    match mm_of t with
    | Some p => match h !! p with
                | Some d => (t, d) :: entries h ts
                | None => entries h ts
                end
    | None => entries h ts
    end.
Proof.
  unfold entries. simpl. destruct (mm_of t) as [p|]; simpl; [|done].
  by destruct (h !! p).
Qed.

Lemma kernel_wf_cons h t ts :
  kernel_wf h (t :: ts) →
  (∀ p, mm_of t = Some p → ∃ d, h !! p = Some d ∧ 1 ≤ mm_users d) ∧
  kernel_wf h ts.
Proof.
  intros H. split.
  - intros p. apply H. by left.
  - intros t' p Hin. apply H. by right.
Qed.

(** The whole loop, by induction on the task list. *)
Lemma for_each_process_run ts : ∀ n st,
  kernel_wf (heap st) ts →
  for_each_process ts (wrap64 n) st =
    Some (wrap64 (n + Z.of_nat (length (entries (heap st) ts))),
          {| heap := heap st;
             ktrace := ktrace st ++ flat_map (task_events (heap st)) ts |}).
Proof.
  induction ts as [|t ts IH]; intros n st Hwf.
  - simpl. rewrite ret_run, app_nil_r, Z.add_0_r. by destruct st.
  - apply kernel_wf_cons in Hwf as [Ht Hts].
    cbn [for_each_process]. rewrite bind_run, (proc_show_task_run t _ st Ht).
    rewrite entries_cons. cbn [flat_map].
    destruct (mm_of t) as [p|] eqn:Hmm.
    + destruct (Ht p eq_refl) as (d & Hd & _). rewrite Hd.
      rewrite wrap64_succ, IH by done. cbn [heap ktrace length].
      do 3 f_equal; [lia | by rewrite app_assoc].
    + rewrite IH by done. cbn [heap ktrace]. by rewrite app_assoc.
Qed.

Lemma proc_show_run k st :
  kernel_wf (heap st) (tasks k) →
  proc_show k st =
    Some (0,
          {| heap := heap st;
             ktrace := ktrace st ++ map KPrintf (header k) ++
                       flat_map (task_events (heap st)) (tasks k) ++
                       [KPrintf ([LF] ++ str "Total Processes: " ++
                                 fmt_u (wrap64 (Z.of_nat (length (entries (heap st) (tasks k))))) ++
                                 [LF])] |}).
Proof.
  intros Hwf. unfold proc_show.
  do 15 (rewrite bind_run; unfold seq_printf at 1, emit at 1; cbn [heap ktrace]).
  rewrite bind_run.
  change 0 with (wrap64 0) at 1.
  rewrite for_each_process_run by done. cbn [heap ktrace].
  rewrite bind_run. unfold seq_printf, emit. cbn [heap ktrace].
  rewrite ret_run. do 3 f_equal.
  rewrite <- !app_assoc. reflexivity.
Qed.

Lemma seq_chunks_app a b : seq_chunks (a ++ b) = seq_chunks a ++ seq_chunks b.
Proof. apply omap_app. Qed.

Lemma seq_chunks_printf l : seq_chunks (map KPrintf l) = l.
Proof. induction l as [|c l IH]; [done|]. simpl. by rewrite IH. Qed.

(** The chunks of the loop are the rows of the entries, in order. *)
Lemma seq_chunks_tasks h ts :
  seq_chunks (flat_map (task_events h) ts) =
    map (λ e, row_format (comm e.1) (pid e.1) (wrap64 (total_vm e.2 * 4)))
        (entries h ts).
Proof.
  induction ts as [|t ts IH]; [done|].
  cbn [flat_map]. rewrite seq_chunks_app, entries_cons, IH.
  unfold task_events. destruct (mm_of t) as [p|]; [|done].
  destruct (h !! p); done.
Qed.

Lemma mm_events_app a b : mm_events (a ++ b) = mm_events a ++ mm_events b.
Proof. apply filter_app. Qed.

Lemma mm_events_printf l : mm_events (map KPrintf l) = [].
Proof. induction l as [|c l IH]; [done|]. simpl. by rewrite <- IH. Qed.

End provider.

(** ** The provider: the claims *)

Section provider_claims.
Import kernel_monitor snapshot.

Lemma entries_length h ts : (length (entries h ts) ≤ length ts)%nat.
Proof.
  induction ts as [|t ts IH]; [done|]. rewrite entries_cons. simpl.
  destruct (mm_of t) as [p|]; [destruct (h !! p)|]; simpl; lia.
Qed.

Lemma entries_elem h ts t d :
  (t, d) ∈ entries h ts → t ∈ ts ∧ ∃ p, mm_of t = Some p ∧ h !! p = Some d.
Proof.
  induction ts as [|u ts IH]; [by intros ?%elem_of_nil|].
  rewrite entries_cons.
  destruct (mm_of u) as [p|] eqn:Hu; [destruct (h !! p) as [e|] eqn:He|].
  - intros [[= -> ->]|Hin]%elem_of_cons.
    + split; [by left | eauto].
    + destruct (IH Hin) as [? ?]. split; [by right | done].
  - intros Hin. destruct (IH Hin) as [? ?]. split; [by right | done].
  - intros Hin. destruct (IH Hin) as [? ?]. split; [by right | done].
Qed.

Lemma kernel_wf_Forall h ts :
  Forall (λ t, ∀ p, mm_of t = Some p → ∃ d, h !! p = Some d ∧ 1 ≤ mm_users d) ts →
  kernel_wf h ts.
Proof. intros H t p Hin. rewrite Forall_forall in H. by apply H. Qed.

Lemma bashd_state_wf cpu mem p users tr :
  1 ≤ users →
  kernel_wf (heap (bashd_state p users tr)) (tasks (bashd_kernel cpu mem p)).
Proof.
  intros Hu. apply kernel_wf_Forall. repeat constructor.
  intros q [= <-]. eexists. split; [apply lookup_singleton_eq | done].
Qed.

Lemma example_state_wf :
  kernel_wf (heap (bashd_state 1 1 [])) (tasks example_kernel).
Proof.
  apply kernel_wf_Forall. repeat constructor; [by intros q [=] |].
  intros q [= <-]. eexists. split; [apply lookup_singleton_eq | done].
Qed.

(** The snapshot of the example, whole: the kernel thread has no row. *)
Example example_snapshot :
  ∃ st',
    proc_show example_kernel (bashd_state 1 1 []) = Some (0, st') ∧
    seq_text (ktrace st') = str
"===========================================
     Linux Kernel Monitor v1.0.0
===========================================

CPU Statistics (CPU 0):
  User Time:   1000000000 ns
  System Time: 500000000 ns
  Idle Time:   8500000000 ns

Memory Statistics:
  Total RAM:   1048576 pages (4096 MB)
  Free RAM:    262144 pages (1024 MB)
  Shared RAM:  1024 pages
  Buffer RAM:  2048 pages

Process Information:
Name                 PID      Memory (KB) 
-------------------------------------------
bashd                1234     8192        

Total Processes: 1
".
Proof. eexists. split; [vm_compute; reflexivity | reflexivity]. Qed.

(** C1: the number printed after "Total Processes:" is the number of rows
    printed in the table.  The counter is a local of [proc_show],
    incremented once per row; being an [unsigned long] it counts exactly
    as long as there are fewer than 2^64 tasks. *)
Theorem total_processes_counts_rows k st :
  kernel_wf (heap st) (tasks k) →
  Z.of_nat (length (tasks k)) < 2 ^ 64 →
  ∃ st' rows,
    proc_show k st = Some (0, st') ∧
    rows = map (λ e, row_format (comm e.1) (pid e.1) (wrap64 (total_vm e.2 * 4)))
               (entries (heap st) (tasks k)) ∧
    seq_chunks (ktrace st') =
      seq_chunks (ktrace st) ++ header k ++ rows ++
      [[LF] ++ str "Total Processes: " ++ fmt_u (Z.of_nat (length rows)) ++ [LF]].
Proof.
  intros Hwf Hlen. eexists _, _. split; [by apply proc_show_run|].
  split; [reflexivity|]. cbn [ktrace].
  rewrite !seq_chunks_app, seq_chunks_printf, seq_chunks_tasks.
  rewrite length_map, wrap64_small; [done|].
  pose proof (entries_length (heap st) (tasks k)). lia.
Qed.

Lemma total_processes_counts_rows_witness :
  kernel_wf (heap (bashd_state 1 1 [])) (tasks example_kernel) ∧
  ∃ st' rows,
    proc_show example_kernel (bashd_state 1 1 []) = Some (0, st') ∧
    rows = map (λ e, row_format (comm e.1) (pid e.1) (wrap64 (total_vm e.2 * 4)))
               (entries (heap (bashd_state 1 1 [])) (tasks example_kernel)) ∧
    seq_chunks (ktrace st') =
      seq_chunks (ktrace (bashd_state 1 1 [])) ++ header example_kernel ++ rows ++
      [[LF] ++ str "Total Processes: " ++ fmt_u (Z.of_nat (length rows)) ++ [LF]].
Proof.
  split; [exact example_state_wf|].
  apply (total_processes_counts_rows example_kernel (bashd_state 1 1 []));
    [exact example_state_wf | simpl; lia].
Defined.

(** C4: every row shows, as its memory column, the total_vm of the task's
    descriptor times 4.  The product is computed in [unsigned long]; it is
    exact for every descriptor of fewer than 2^62 pages. *)
Theorem resident_kb_is_four_times_total_vm k st :
  kernel_wf (heap st) (tasks k) →
  (∀ p d, heap st !! p = Some d → 0 ≤ total_vm d < 2 ^ 62) →
  ∃ st' footer,
    proc_show k st = Some (0, st') ∧
    seq_chunks (ktrace st') =
      seq_chunks (ktrace st) ++ header k ++
      map (λ e, row_format (comm e.1) (pid e.1) (total_vm e.2 * 4))
          (entries (heap st) (tasks k)) ++
      [footer].
Proof.
  intros Hwf Hvm. eexists _, _. split; [by apply proc_show_run|].
  cbn [ktrace].
  rewrite !seq_chunks_app, seq_chunks_printf, seq_chunks_tasks.
  do 2 f_equal. f_equal.
  apply map_ext_in. intros [t d] Hin. cbn [fst snd].
  apply list_elem_of_In, entries_elem in Hin as (_ & p & _ & Hd).
  apply Hvm in Hd. rewrite wrap64_small; [done|lia].
Qed.

Lemma resident_kb_is_four_times_total_vm_witness :
  ∃ st' footer,
    proc_show example_kernel (bashd_state 1 1 []) = Some (0, st') ∧
    seq_chunks (ktrace st') =
      header example_kernel ++
      [row_format (str "bashd") 1234 8192] ++ [footer].
Proof.
  apply (resident_kb_is_four_times_total_vm example_kernel (bashd_state 1 1 []));
    [exact example_state_wf|].
  intros p d. cbn [heap bashd_state].
  intros [<- <-]%lookup_singleton_Some. simpl. lia.
Defined.

(** C5: the MB figure of the "Total RAM" and "Free RAM" lines is the page
    count times 4, divided by 1024 and rounded down; 1048576 pages read
    "Total RAM:   1048576 pages (4096 MB)".  The product is computed in
    [unsigned long]; it is exact below 2^62 pages. *)
Theorem ram_megabytes k st :
  kernel_wf (heap st) (tasks k) →
  0 ≤ totalram (si_meminfo k) < 2 ^ 62 →
  0 ≤ freeram (si_meminfo k) < 2 ^ 62 →
  ∃ st' rest,
    proc_show k st = Some (0, st') ∧
    seq_chunks (ktrace st') = seq_chunks (ktrace st) ++ header k ++ rest ∧
    header k !! 8%nat =
      Some (str "  Total RAM:   " ++ fmt_u (totalram (si_meminfo k)) ++
            str " pages (" ++ fmt_u (totalram (si_meminfo k) * 4 / 1024) ++
            str " MB)" ++ [LF]) ∧
    header k !! 9%nat =
      Some (str "  Free RAM:    " ++ fmt_u (freeram (si_meminfo k)) ++
            str " pages (" ++ fmt_u (freeram (si_meminfo k) * 4 / 1024) ++
            str " MB)" ++ [LF]) ∧
    (totalram (si_meminfo k) = 1048576 →
     header k !! 8%nat = Some (str "  Total RAM:   1048576 pages (4096 MB)" ++ [LF])).
Proof.
  intros Hwf Htotal Hfree. eexists _, _. split; [by apply proc_show_run|].
  cbn [ktrace]. split.
  { rewrite !seq_chunks_app, seq_chunks_printf. reflexivity. }
  unfold header. cbn [lookup list_lookup].
  rewrite !wrap64_small by lia. split; [done|]. split; [done|].
  intros ->. reflexivity.
Qed.

Lemma ram_megabytes_witness :
  ∃ st' rest,
    proc_show example_kernel (bashd_state 1 1 []) = Some (0, st') ∧
    seq_chunks (ktrace st') = header example_kernel ++ rest ∧
    header example_kernel !! 8%nat =
      Some (str "  Total RAM:   1048576 pages (4096 MB)" ++ [LF]) ∧
    header example_kernel !! 9%nat =
      Some (str "  Free RAM:    262144 pages (1024 MB)" ++ [LF]).
Proof.
  destruct (ram_megabytes example_kernel (bashd_state 1 1 []))
    as (st' & rest & Hrun & Hchunks & Htotal & Hfree & _);
    [exact example_state_wf | simpl; lia | simpl; lia |].
  exists st', rest. split; [exact Hrun|]. split; [exact Hchunks|].
  split; [exact Htotal | exact Hfree].
Defined.

Lemma mm_events_tasks h ts :
  kernel_wf h ts →
  mm_events (flat_map (task_events h) ts) =
    flat_map (λ t, match mm_of t with
                   | Some p => [KMmGet p; KMmRead p; KMmPut p]
                   | None => []
                   end) ts.
Proof.
  induction ts as [|t ts IH]; [done|].
  intros [Ht Hts]%kernel_wf_cons. cbn [flat_map].
  rewrite mm_events_app, IH by done. f_equal.
  unfold task_events. destruct (mm_of t) as [p|]; [|done].
  destruct (Ht p eq_refl) as (d & -> & _). done.
Qed.

(** C9: in a run of [proc_show] every task whose descriptor is not
    available produces no descriptor event at all, and every other task
    produces exactly: reference taken, page count read, reference given
    back; so the reference counts are afterwards what they were before. *)
Theorem mm_references_paired k st :
  kernel_wf (heap st) (tasks k) →
  ∃ st',
    proc_show k st = Some (0, st') ∧
    heap st' = heap st ∧
    mm_events (ktrace st') =
      mm_events (ktrace st) ++
      flat_map (λ t, match mm_of t with
                     | Some p => [KMmGet p; KMmRead p; KMmPut p]
                     | None => []
                     end) (tasks k).
Proof.
  intros Hwf. eexists. split; [by apply proc_show_run|].
  split; [done|]. cbn [ktrace].
  rewrite !mm_events_app, mm_events_printf, mm_events_tasks by done.
  cbn [app]. by rewrite app_nil_r.
Qed.

Lemma mm_references_paired_witness :
  ∃ st',
    proc_show example_kernel (bashd_state 1 1 []) = Some (0, st') ∧
    heap st' = {[ 1%N := {| total_vm := 2048; mm_users := 1 |} ]} ∧
    mm_events (ktrace st') = [KMmGet 1; KMmRead 1; KMmPut 1].
Proof.
  apply (mm_references_paired example_kernel (bashd_state 1 1 [])).
  exact example_state_wf.
Defined.

(** C2, as the code has it: for the process list whose only entry is
    ("bashd", 1234, 8192) the chunks after the header are the row
    "bashd                1234     8192        " and then the footer, which
    starts with a newline of its own: an empty line separates the row from
    "Total Processes: 1". *)
Theorem bashd_row_and_footer cpu mem p users tr :
  1 ≤ users →
  ∃ st',
    proc_show (bashd_kernel cpu mem p) (bashd_state p users tr) = Some (0, st') ∧
    seq_chunks (ktrace st') =
      seq_chunks tr ++ header (bashd_kernel cpu mem p) ++
      [ str "bashd                1234     8192        " ++ [LF];
        [LF] ++ str "Total Processes: 1" ++ [LF] ].
Proof.
  intros Hu. eexists. split.
  { apply proc_show_run. by apply bashd_state_wf. }
  cbn [ktrace heap bashd_state].
  rewrite !seq_chunks_app, seq_chunks_printf, seq_chunks_tasks.
  do 2 f_equal. cbn [bashd_kernel tasks].
  rewrite entries_cons. cbn [mm_of bashd mm PF_KTHREAD].
  rewrite lookup_singleton_eq. reflexivity.
Qed.

Lemma bashd_row_and_footer_witness :
  ∃ st',
    proc_show (bashd_kernel example_cpu example_mem 1) (bashd_state 1 1 []) =
      Some (0, st') ∧
    seq_chunks (ktrace st') =
      header (bashd_kernel example_cpu example_mem 1) ++
      [ str "bashd                1234     8192        " ++ [LF];
        [LF] ++ str "Total Processes: 1" ++ [LF] ].
Proof.
  apply (bashd_row_and_footer example_cpu example_mem 1 1 []). lia.
Defined.

(** C2, as the specification words it (the footer right after the row):
    the text rendered for that process list does not contain the row
    followed at once by the footer line. *)
Lemma bashd_footer_not_adjacent :
  ∃ st',
    proc_show (bashd_kernel example_cpu example_mem 1) (bashd_state 1 1 []) =
      Some (0, st') ∧
    ¬ contains (seq_text (ktrace st'))
        (str "bashd                1234     8192        " ++ [LF] ++
         str "Total Processes: 1").
Proof.
  eexists. split; [vm_compute; reflexivity|].
  intros H. apply containsb_spec in H. vm_compute in H. discriminate.
Qed.

End provider_claims.

(** ** The provider's text is a C string: it holds no NUL *)

Section provider_text.
Import kernel_monitor snapshot.

Lemma nul_free_check (s : text) :
  forallb (λ c, negb (Ascii.eqb c NUL)) s = true → NUL ∉ s.
Proof.
  induction s as [|c s IH]; cbn [forallb].
  - intros _. apply not_elem_of_nil.
  - intros [Hc Hs]%andb_true_iff. apply not_elem_of_cons. split; [|by apply IH].
    intros <-. by rewrite Ascii.eqb_refl in Hc.
Qed.

Lemma nul_free_uint d : NUL ∉ str (NilEmpty.string_of_uint d).
Proof.
  induction d; cbn; try apply not_elem_of_nil;
    (apply not_elem_of_cons; split; [discriminate | assumption]).
Qed.

Lemma nul_free_fmt_u z : NUL ∉ fmt_u z.
Proof. apply nul_free_uint. Qed.

Lemma nul_free_fmt_d z : NUL ∉ fmt_d z.
Proof.
  unfold fmt_d. destruct (Z.to_int z) as [d|d]; cbn.
  - apply nul_free_uint.
  - apply not_elem_of_cons. split; [discriminate | apply nul_free_uint].
Qed.

Lemma nul_free_spaces n : NUL ∉ replicate n SP.
Proof. intros [H _]%elem_of_replicate. discriminate H. Qed.

Lemma nul_free_row name p kb : NUL ∉ name → NUL ∉ row_format name p kb.
Proof.
  intros Hname. unfold row_format.
  repeat (apply not_elem_of_app; split);
    auto using nul_free_spaces, nul_free_fmt_d, nul_free_fmt_u;
    by apply nul_free_check.
Qed.

Lemma nul_free_concat (chunks : list text) :
  Forall (λ c, NUL ∉ c) chunks → NUL ∉ concat chunks.
Proof.
  induction 1 as [|c chunks Hc _ IH]; cbn; [apply not_elem_of_nil|].
  by apply not_elem_of_app.
Qed.

Lemma nul_free_header k : Forall (λ c, NUL ∉ c) (header k).
Proof.
  unfold header.
  repeat (apply Forall_cons; split;
          [repeat (apply not_elem_of_app; split);
           first [apply nul_free_fmt_u | by apply nul_free_check]|]).
  apply Forall_nil_2.
Qed.

(** The text of a snapshot holds no NUL byte as long as no task name
    does (a task name is itself a C string). *)
Lemma snapshot_nul_free k st :
  kernel_wf (heap st) (tasks k) →
  Forall (λ t, NUL ∉ comm t) (tasks k) →
  ∃ st' new,
    proc_show k st = Some (0, st') ∧
    ktrace st' = ktrace st ++ new ∧
    NUL ∉ seq_text new.
Proof.
  intros Hwf Hcomm. eexists _, _. split; [by apply proc_show_run|].
  cbn [ktrace]. split; [reflexivity|]. unfold seq_text.
  rewrite !seq_chunks_app, seq_chunks_printf, seq_chunks_tasks.
  apply nul_free_concat. rewrite !Forall_app. split; [apply nul_free_header|].
  split.
  - apply Forall_forall. intros row [[t d] [-> Hin]]%list_elem_of_fmap.
    apply entries_elem in Hin as [Hin _]. cbn [fst snd].
    apply nul_free_row. rewrite Forall_forall in Hcomm. by apply Hcomm.
  - apply Forall_singleton.
    repeat (apply not_elem_of_app; split);
      first [apply nul_free_fmt_u | by apply nul_free_check].
Qed.

End provider_text.

(** ** The client: what one fetch does *)

Import monitor_app client.

Lemma after_after w evs n e t evs' n' e' t' :
  after (after w evs n e t) evs' n' e' t' = after w (evs ++ evs') n' e' t'.
Proof. unfold after. cbn. by rewrite app_assoc. Qed.

Lemma opens_after w evs n e t : opens (after w evs n e t) = n.
Proof. reflexivity. Qed.

Lemma errno_after w evs n e t : errno (after w evs n e t) = e.
Proof. reflexivity. Qed.

Lemma fds_after w evs n e t : fds (after w evs n e t) = t.
Proof. reflexivity. Qed.

(** Bring a world reached through [after] back to one [after]. *)
Ltac io_norm := rewrite ?after_after, ?opens_after, ?errno_after, ?fds_after.

Section client_runs.

Variable P : platform.

Lemma c_string_terminated (data rest : text) :
  rest ≠ [] →
  c_string (<[length data := NUL]> (data ++ rest)) = Some (until_nul data).
Proof.
  intros Hrest. induction data as [|c data IH]; simpl.
  - destruct rest; [done|]. reflexivity.
  - destruct (Ascii.eqb c NUL); [done|]. by rewrite IH.
Qed.

Lemma fd_not_negative (fd : N) : (Z.of_N fd <? 0) = false.
Proof. apply Z.ltb_ge, N2Z.is_nonneg. Qed.

Lemma bind_gets {A B} (field : world → A) (k : A → IO B) w :
  (gets field ≫= k) w = k (field w) w.
Proof. reflexivity. Qed.

Lemma bind_emit {B} e (k : unit → IO B) w :
  (monitor_app.emit e ≫= k) w =
    k tt (after w [e] (opens w) (errno w) (fds w)).
Proof. reflexivity. Qed.

Lemma bind_set_io {B} n e t (k : unit → IO B) w :
  (set_io n e t ≫= k) w = k tt (after w [] n e t).
Proof. unfold after. rewrite app_nil_r. reflexivity. Qed.

Lemma set_io_run n e t w : set_io n e t w = Some (tt, after w [] n e t).
Proof. unfold after. rewrite app_nil_r. reflexivity. Qed.

Lemma sys_open_run path w :
  sys_open P path w =
    match endpoint_at P (opens w) with
    | OpenFails e =>
        Some (-1, after w [SysOpen path] (S (opens w)) e (fds w))
    | ReadFails fd e =>
        Some (Z.of_N fd,
              after w [SysOpen path] (S (opens w)) (errno w)
                    (<[fd := Broken e]> (fds w)))
    | Serves fd t =>
        Some (Z.of_N fd,
              after w [SysOpen path] (S (opens w)) (errno w)
                    (<[fd := Content t]> (fds w)))
    end.
Proof.
  unfold sys_open. rewrite bind_emit, !bind_gets. cbn [after opens errno fds].
  destruct (endpoint_at P (opens w));
    rewrite bind_set_io, ret_run, after_after; reflexivity.
Qed.

Lemma sys_read_broken (fd : N) buf count w e :
  fds w !! fd = Some (Broken e) →
  sys_read (Z.of_N fd) buf count w =
    Some ((-1, buf), after w [SysRead (Z.of_N fd) count] (opens w) e (fds w)).
Proof.
  intros Hfd. unfold sys_read. rewrite bind_emit, !bind_gets.
  cbn [after opens errno fds].
  rewrite fd_not_negative, N2Z.id, Hfd.
  rewrite bind_set_io, ret_run, after_after. reflexivity.
Qed.

Lemma sys_read_content (fd : N) buf count w t :
  fds w !! fd = Some (Content t) →
  (Nat.min (Z.to_nat count) (length t) ≤ length buf)%nat →
  sys_read (Z.of_N fd) buf count w =
    Some ((Z.of_nat (Nat.min (Z.to_nat count) (length t)),
           take (Nat.min (Z.to_nat count) (length t)) t ++
           drop (Nat.min (Z.to_nat count) (length t)) buf),
          after w [SysRead (Z.of_N fd) count] (opens w) (errno w) (fds w)).
Proof.
  intros Hfd Hlen. unfold sys_read. rewrite bind_emit, !bind_gets.
  cbn [after opens errno fds].
  rewrite fd_not_negative, N2Z.id, Hfd.
  apply Nat.leb_le in Hlen. rewrite Hlen. reflexivity.
Qed.

Lemma close_run (fd : N) w :
  close (Z.of_N fd) w =
    Some (tt, after w [SysClose (Z.of_N fd)] (opens w) (errno w)
                    (delete fd (fds w))).
Proof.
  unfold close. rewrite bind_emit, !bind_gets. cbn [after opens errno fds].
  rewrite fd_not_negative, N2Z.id.
  rewrite set_io_run, after_after. reflexivity.
Qed.

Lemma fprintf_stderr_run s w :
  fprintf_stderr s w = Some (tt, after w [Stderr s] (opens w) (errno w) (fds w)).
Proof. reflexivity. Qed.

Lemma printf_run s w :
  printf s w = Some (tt, after w [Stdout s] (opens w) (errno w) (fds w)).
Proof. reflexivity. Qed.

Lemma sleep_run n w :
  sleep n w = Some (tt, after w [SysSleep (n mod 2 ^ 32)] (opens w) (errno w) (fds w)).
Proof. reflexivity. Qed.

Lemma read_kernel_data_open_fails buffer size w e :
  endpoint_at P (opens w) = OpenFails e →
  read_kernel_data P buffer size w =
    Some ((-1, buffer),
          after w ([SysOpen PROC_PATH] ++ open_diagnostic P e)
                (S (opens w)) e (fds w)).
Proof.
  intros Hep. unfold read_kernel_data.
  rewrite bind_run, sys_open_run, Hep.
  change (-1 <? 0) with true. cbn match.
  rewrite bind_run. unfold gets at 1. cbn [errno after].
  rewrite bind_run, fprintf_stderr_run, bind_run, fprintf_stderr_run.
  rewrite ret_run, !after_after. reflexivity.
Qed.

Lemma read_kernel_data_read_fails buffer size w fd e :
  endpoint_at P (opens w) = ReadFails fd e →
  read_kernel_data P buffer size w =
    Some ((-1, buffer),
          after w ([SysOpen PROC_PATH; SysRead (Z.of_N fd) (wrap64 (size - 1))] ++
                   read_diagnostic P e ++ [SysClose (Z.of_N fd)])
                (S (opens w)) e (delete fd (<[fd := Broken e]> (fds w)))).
Proof.
  intros Hep. unfold read_kernel_data.
  rewrite bind_run, sys_open_run, Hep, fd_not_negative.
  rewrite bind_run, (sys_read_broken _ _ _ _ e) by apply lookup_insert_eq.
  cbn [fst snd]. change (-1 <? 0) with true. cbn match.
  rewrite bind_run. unfold gets at 1. cbn [errno after].
  rewrite bind_run, fprintf_stderr_run, bind_run, close_run.
  rewrite ret_run, !after_after. reflexivity.
Qed.

Lemma read_kernel_data_serves buffer size w fd t :
  endpoint_at P (opens w) = Serves fd t →
  (Z.to_nat (wrap64 (size - 1)) < length buffer)%nat →
  let n := Nat.min (Z.to_nat (wrap64 (size - 1))) (length t) in
  read_kernel_data P buffer size w =
    Some ((Z.of_nat n, <[n := NUL]> (take n t ++ drop n buffer)),
          after w [SysOpen PROC_PATH; SysRead (Z.of_N fd) (wrap64 (size - 1));
                   SysClose (Z.of_N fd)]
                (S (opens w)) (errno w) (delete fd (<[fd := Content t]> (fds w)))).
Proof.
  intros Hep Hsize n. unfold read_kernel_data.
  rewrite bind_run, sys_open_run, Hep, fd_not_negative.
  rewrite bind_run, (sys_read_content _ _ _ _ t);
    [|apply lookup_insert_eq|lia].
  cbn [fst snd]. fold n.
  destruct (Z.ltb_spec (Z.of_nat n) 0) as [Hneg|_]; [lia|].
  rewrite bind_run. unfold store.
  assert (length (take n t ++ drop n buffer) = length buffer) as Hlen.
  { rewrite length_app, length_take, length_drop. lia. }
  rewrite Hlen.
  destruct (Z.leb_spec 0 (Z.of_nat n)) as [_|Hneg]; [|lia].
  destruct (Z.ltb_spec (Z.of_nat n) (Z.of_nat (length buffer))) as [_|Hge]; [|lia].
  cbn [andb]. rewrite ret_run, Nat2Z.id.
  rewrite bind_run, close_run, ret_run, !after_after. reflexivity.
Qed.

Lemma local_array_run size w :
  local_array P size w = Some (resize (Z.to_nat size) NUL (stack_at P (opens w)), w).
Proof. reflexivity. Qed.

Lemma take_min_length {A} (n : nat) (l : list A) :
  take (Nat.min n (length l)) l = take n l.
Proof.
  destruct (Nat.le_gt_cases n (length l)) as [Hle|Hgt].
  - by rewrite Nat.min_l.
  - rewrite Nat.min_r, !take_ge by lia. done.
Qed.

(** The buffer [read_kernel_data] hands back holds, as a C string, the
    bytes read, up to a NUL among them. *)
Lemma c_string_after_read (n : nat) (t buffer : text) :
  (n < length buffer)%nat →
  c_string (<[Nat.min n (length t) := NUL]>
              (take (Nat.min n (length t)) t ++ drop (Nat.min n (length t)) buffer)) =
    Some (until_nul (take n t)).
Proof.
  intros Hn. rewrite take_min_length.
  replace (Nat.min n (length t)) with (length (take n t)) by apply length_take.
  apply c_string_terminated.
  intros Hnil. apply (f_equal length) in Hnil.
  rewrite length_drop, length_take in Hnil. simpl in Hnil. lia.
Qed.

(** One call of [display_data]: it always returns, and its events are
    those of [fetch_events] for the state of the entry at this [open]. *)
Lemma display_data_run raw w :
  ∃ e t,
    display_data P raw w =
      Some (tt, after w (fetch_events P raw (opens w)) (S (opens w)) e t).
Proof.
  unfold display_data, fetch_events.
  rewrite bind_run, local_array_run.
  set (buffer := resize (Z.to_nat BUFFER_SIZE) NUL (stack_at P (opens w))).
  assert (length buffer = 4096%nat) as Hlen by apply length_resize.
  rewrite bind_run.
  destruct (endpoint_at P (opens w)) as [e|fd e|fd t] eqn:Hep.
  - rewrite (read_kernel_data_open_fails _ _ _ e Hep). cbn [fst snd].
    change (-1 <? 0) with true. cbn match. rewrite ret_run. eauto.
  - rewrite (read_kernel_data_read_fails _ _ _ fd e Hep). cbn [fst snd].
    change (-1 <? 0) with true. cbn match. rewrite ret_run. eauto.
  - change (wrap64 (BUFFER_SIZE - 1)) with 4095.
    rewrite (read_kernel_data_serves _ _ _ fd t Hep);
      change (wrap64 (BUFFER_SIZE - 1)) with 4095;
      change (Z.to_nat 4095) with 4095%nat; [|lia].
    cbn [fst snd].
    set (n := Nat.min 4095 (length t)).
    destruct (Z.ltb_spec (Z.of_nat n) 0) as [Hneg|_]; [lia|].
    unfold string_arg, n. rewrite c_string_after_read by lia. fold (shown t).
    destruct (Z.eqb_spec raw 0) as [->|Hraw]; cbn [negb].
    + do 6 (rewrite bind_run, printf_run; io_norm).
      rewrite bind_run, ret_run, printf_run. io_norm. eauto.
    + rewrite bind_run, ret_run, printf_run. io_norm. eauto.
Qed.

End client_runs.

(** ** The client: the claims *)

Section client_claims.

Lemma stdout_text_app a b : stdout_text (a ++ b) = stdout_text a ++ stdout_text b.
Proof. unfold stdout_text. by rewrite omap_app, concat_app. Qed.

Lemma stderr_text_app a b : stderr_text (a ++ b) = stderr_text a ++ stderr_text b.
Proof. unfold stderr_text. by rewrite omap_app, concat_app. Qed.

Lemma reads_app a b : reads (a ++ b) = reads a ++ reads b.
Proof. apply filter_app. Qed.

(** C6: when [open] or [read] fails, [display_data] returns to its
    caller, has written its diagnostic to the error stream and nothing to
    the output stream. *)
Theorem failed_fetch_only_diagnoses P raw w diag :
  failure P (endpoint_at P (opens w)) = Some diag →
  ∃ w',
    display_data P raw w = Some (tt, w') ∧
    stdout_text (trace w') = stdout_text (trace w) ∧
    stderr_text (trace w') = stderr_text (trace w) ++ stderr_text diag ∧
    stderr_text diag ≠ [].
Proof.
  intros Hfail. destruct (display_data_run P raw w) as (e & t & Hrun).
  eexists. split; [exact Hrun|]. cbn [after trace].
  rewrite stdout_text_app, stderr_text_app. unfold fetch_events.
  destruct (endpoint_at P (opens w)) as [e'|fd e'|fd t'];
    cbn [failure] in Hfail; [| |discriminate];
    injection Hfail as <-; (split; [by rewrite app_nil_r|]); done.
Qed.

Lemma failed_fetch_only_diagnoses_witness :
  ∃ w',
    display_data absent 0 boot = Some (tt, w') ∧
    stdout_text (trace w') = [] ∧
    stderr_text (trace w') =
      COLOR_RED ++
      str "Error: Failed to open /proc/kernel_monitor: No such file or directory" ++
      [LF] ++ COLOR_RESET ++
      str "Make sure the kernel module is loaded (insmod kernel_monitor.ko)" ++ [LF].
Proof.
  destruct (failed_fetch_only_diagnoses absent 0 boot (open_diagnostic absent 2))
    as (w' & Hrun & Hout & Herr & _); [reflexivity|].
  exists w'. split; [exact Hrun|]. split; [exact Hout | exact Herr].
Defined.

Lemma watch_loop_run P interval frames : ∀ w,
  0 < interval < 2 ^ 31 →
  ∃ e t,
    watch_loop P frames interval w =
      Some (tt,
            after w
              (flat_map (λ n, fetch_events P 0 n ++ [SysSleep interval])
                        (seq (opens w) frames))
              (opens w + frames) e t).
Proof.
  induction frames as [|frames IH]; intros w Hint.
  - exists (errno w), (fds w). cbn. unfold after.
    rewrite app_nil_r, Nat.add_0_r. by destruct w.
  - cbn [watch_loop]. rewrite bind_run.
    destruct (display_data_run P 0 w) as (e1 & t1 & ->).
    rewrite bind_run, sleep_run, after_after. cbn [after opens errno fds].
    fold (after w (fetch_events P 0 (opens w) ++ [SysSleep (interval mod 2 ^ 32)])
                (S (opens w)) e1 t1).
    rewrite Z.mod_small by lia.
    destruct (IH (after w (fetch_events P 0 (opens w) ++ [SysSleep interval])
                        (S (opens w)) e1 t1) Hint) as (e2 & t2 & ->).
    exists e2, t2. rewrite after_after. cbn [opens after].
    cbn [seq flat_map]. by rewrite Nat.add_succ_r.
Qed.

Lemma watch_mode_run P interval frames w :
  0 < interval < 2 ^ 31 →
  ∃ e t,
    watch_mode P frames interval w =
      Some (tt,
            after w
              (watch_banner interval ++
               flat_map (λ n, fetch_events P 0 n ++ [SysSleep interval])
                        (seq (opens w) frames))
              (opens w + frames) e t).
Proof.
  intros Hint. unfold watch_mode.
  rewrite bind_run, printf_run, bind_run, printf_run, bind_run, sleep_run.
  io_norm.
  destruct (watch_loop_run P interval frames
              (after w (watch_banner interval) (opens w) (errno w) (fds w)) Hint)
    as (e & t & Hloop).
  rewrite after_after in Hloop. exists e, t. exact Hloop.
Qed.

(** C7: for a positive interval, [watch_mode] prints its banner, sleeps
    2 seconds and then, for as many turns as one cares to follow, does a
    decorated fetch and sleeps [interval] seconds.  Whatever the state of
    the entry at each fetch, every turn is completed and followed by the
    next; a fetch that fails at [open] leaves its diagnostic and the loop
    goes on to its sleep. *)
Theorem watch_mode_keeps_polling P interval frames w :
  0 < interval < 2 ^ 31 →
  ∃ w',
    watch_mode P frames interval w = Some (tt, w') ∧
    trace w' =
      trace w ++ watch_banner interval ++
      flat_map (λ n, fetch_events P 0 n ++ [SysSleep interval])
               (seq (opens w) frames) ∧
    opens w' = (opens w + frames)%nat ∧
    ∀ n e, endpoint_at P n = OpenFails e →
           fetch_events P 0 n ++ [SysSleep interval] =
             [SysOpen PROC_PATH] ++ open_diagnostic P e ++ [SysSleep interval].
Proof.
  intros Hint.
  destruct (watch_mode_run P interval frames w Hint) as (e & t & Hrun).
  eexists. split; [exact Hrun|]. cbn [after trace opens].
  split; [done|]. split; [done|].
  intros n e' Hep. unfold fetch_events. rewrite Hep. by rewrite <- app_assoc.
Qed.

Lemma watch_mode_keeps_polling_witness :
  ∃ w',
    watch_mode flaky 3 5 boot = Some (tt, w') ∧
    trace w' =
      watch_banner 5 ++
      [SysOpen PROC_PATH; SysRead 3 4095; SysClose 3] ++ map Stdout live_view ++
      [Stdout ([LF] ++ str "snapshot" ++ [LF]); SysSleep 5] ++
      [SysOpen PROC_PATH] ++ open_diagnostic flaky 2 ++ [SysSleep 5] ++
      [SysOpen PROC_PATH; SysRead 3 4095] ++ read_diagnostic flaky 5 ++
      [SysClose 3; SysSleep 5].
Proof.
  destruct (watch_mode_keeps_polling flaky 5 3 boot) as (w' & Hrun & Htrace & _);
    [lia|].
  exists w'. split; [exact Hrun | exact Htrace].
Defined.

End client_claims.

(** ** The client: [main] *)

Section main_claims.

(** The option loop on the command lines of interest; the program name
    is arbitrary. *)
Lemma main_options_raw P prog flag :
  flag ∈ [str "-r"; str "--raw"] →
  main_options P (getopt_fuel [prog; flag]) [prog; flag] 0 0 boot =
    Some (inr (1, 0),
          {| trace := []; opens := 0; errno := 0; fds := ∅;
             optind := 2; nextchar := []; optarg := None |}).
Proof.
  intros [->|[->|[]%elem_of_nil]%elem_of_cons]%elem_of_cons; reflexivity.
Qed.

Lemma main_options_none P prog :
  main_options P (getopt_fuel [prog]) [prog] 0 0 boot = Some (inr (0, 0), boot).
Proof. reflexivity. Qed.

Lemma getopt_watch_arg P prog s :
  getopt_long P [prog; str "--watch"; s] (str "hvrw:") long_options boot =
    Some (chr "w",
          {| trace := []; opens := 0; errno := 0; fds := ∅;
             optind := 3; nextchar := []; optarg := Some s |}).
Proof. reflexivity. Qed.

(** One-shot mode: [main] returns 0 after one [display_data]. *)
Lemma main_raw_run P frames prog flag :
  flag ∈ [str "-r"; str "--raw"] →
  ∃ w, main P frames [prog; flag] boot = Some (Some EXIT_SUCCESS, w) ∧
       trace w = fetch_events P 1 0.
Proof.
  intros Hflag. unfold main. rewrite bind_run, main_options_raw by done.
  cbn [fst snd]. change (0 <? 0) with false. cbn match.
  rewrite bind_run.
  match goal with |- context [display_data P 1 ?w1] =>
    destruct (display_data_run P 1 w1) as (e & t & ->) end.
  rewrite ret_run. eexists. split; reflexivity.
Qed.

Lemma main_default_run P frames prog :
  ∃ w, main P frames [prog] boot = Some (Some EXIT_SUCCESS, w) ∧
       trace w = fetch_events P 0 0.
Proof.
  unfold main. rewrite bind_run, main_options_none.
  cbn [fst snd]. change (0 <? 0) with false. cbn match.
  rewrite bind_run.
  destruct (display_data_run P 0 boot) as (e & t & ->).
  rewrite ret_run. eexists. split; reflexivity.
Qed.

(** [atoi] on some arguments of "--watch". *)
Example atoi_examples :
  atoi (str "0") = 0 ∧ atoi (str "-1") = -1 ∧ atoi (str "abc") = 0 ∧
  atoi (str " 42s") = 42 ∧ atoi (str "4294967297") = 1.
Proof. repeat split; reflexivity. Qed.

(** An interval that [atoi] reads as zero or less: [main] reports it and
    returns 1 at once. *)
Lemma invalid_interval_rejected P frames prog s :
  atoi s ≤ 0 →
  ∃ w, main P frames [prog; str "--watch"; s] boot = Some (Some EXIT_FAILURE, w) ∧
       trace w = [Stderr (str "Error: Invalid watch interval" ++ [LF])].
Proof.
  intros Hs. unfold main, getopt_fuel. cbn [main_options].
  rewrite !bind_run, getopt_watch_arg.
  change (chr "w" =? -1) with false. cbn match.
  rewrite bind_run. unfold main_switch.
  change (chr "w" =? chr "h") with false.
  change (chr "w" =? chr "v") with false.
  change (chr "w" =? chr "r") with false.
  change (chr "w" =? chr "w") with true. cbn match.
  rewrite bind_gets. cbn [optarg].
  destruct (Z.leb_spec (atoi s) 0) as [_|Hpos]; [|lia].
  rewrite bind_run, fprintf_stderr_run, !ret_run.
  eexists. split; reflexivity.
Qed.

(** C3, as the code has it: "--watch 0", "--watch -1" and "--watch abc"
    make [main] return 1 without opening the entry and without writing
    anything to the output stream, the usage text included; the error
    stream gets the line "Error: Invalid watch interval". *)
Theorem invalid_watch_interval_exits_1 P frames prog s :
  s ∈ [str "0"; str "-1"; str "abc"] →
  ∃ w,
    main P frames [prog; str "--watch"; s] boot = Some (Some 1, w) ∧
    fetches (trace w) = [] ∧
    stdout_text (trace w) = [] ∧
    stderr_text (trace w) = str "Error: Invalid watch interval" ++ [LF].
Proof.
  intros Hs.
  assert (atoi s ≤ 0) as Hatoi.
  { apply elem_of_cons in Hs as [->|Hs]; [by vm_compute|].
    apply elem_of_cons in Hs as [->|Hs]; [by vm_compute|].
    apply elem_of_cons in Hs as [->|Hs]; [by vm_compute|].
    by apply elem_of_nil in Hs. }
  destruct (invalid_interval_rejected P frames prog s Hatoi) as (w & Hrun & Htrace).
  exists w. rewrite Htrace. done.
Qed.

Lemma invalid_watch_interval_exits_1_witness :
  ∃ w,
    main absent 0 [str "monitor_app"; str "--watch"; str "-1"] boot = Some (Some 1, w) ∧
    fetches (trace w) = [] ∧
    stdout_text (trace w) = [] ∧
    stderr_text (trace w) = str "Error: Invalid watch interval" ++ [LF].
Proof.
  apply (invalid_watch_interval_exits_1 absent 0 (str "monitor_app") (str "-1")).
  apply list_elem_of_further, list_elem_of_here.
Defined.

(** C3, as the specification words it (usage text printed before
    exiting): on "--watch 0" the output stream does not hold the usage
    text. *)
Lemma watch_zero_prints_no_usage :
  ∃ w,
    main absent 0 [str "monitor_app"; str "--watch"; str "0"] boot = Some (Some 1, w) ∧
    ¬ contains (stdout_text (trace w)) (usage_text (str "monitor_app")) ∧
    ¬ contains (stderr_text (trace w)) (usage_text (str "monitor_app")).
Proof.
  eexists. split; [vm_compute; reflexivity|].
  split; intros H; apply containsb_spec in H; vm_compute in H; discriminate.
Qed.

Lemma shown_short t : NUL ∉ t → (length t ≤ 4095)%nat → shown t = t.
Proof.
  intros Hnul Hlen. unfold shown. rewrite take_ge by done. by apply until_nul_id.
Qed.

Lemma shown_long t : NUL ∉ t → shown t = take 4095 t.
Proof.
  intros Hnul. unfold shown. apply until_nul_id.
  intros Hin. apply Hnul. by apply (subseteq_take 4095 t).
Qed.

Lemma stdout_text_printed l : stdout_text (map Stdout l) = concat l.
Proof. induction l as [|s l IH]; [done|]. unfold stdout_text in *. cbn. by rewrite IH. Qed.

Lemma stdout_fetch_raw P raw n fd t :
  endpoint_at P n = Serves fd t → raw ≠ 0 →
  stdout_text (fetch_events P raw n) = shown t ∧
  stderr_text (fetch_events P raw n) = [].
Proof.
  intros Hep Hraw. unfold fetch_events. rewrite Hep.
  destruct (Z.eqb_spec raw 0) as [?|_]; [done|].
  rewrite stdout_text_app, stderr_text_app. cbn. by rewrite app_nil_r.
Qed.

Lemma stdout_fetch_decorated P n fd t :
  endpoint_at P n = Serves fd t →
  stdout_text (fetch_events P 0 n) = concat live_view ++ [LF] ++ shown t ++ [LF] ∧
  stderr_text (fetch_events P 0 n) = [].
Proof.
  intros Hep. unfold fetch_events. rewrite Hep. change (0 =? 0) with true.
  cbn match. rewrite !stdout_text_app, stderr_text_app, stdout_text_printed.
  split; [|reflexivity]. cbn. by rewrite app_nil_r.
Qed.

(** C8, as the code has it: when the fetch succeeds and the provider's
    text has at most 4095 bytes, none of them NUL, "-r" or "--raw" writes
    exactly that text to the output stream, and the default mode writes
    the clear-screen sequence, the boxed title, a newline, the text and a
    newline, so that the text is a contiguous part of its output. *)
Theorem raw_and_decorated_output P frames prog fd t :
  endpoint_at P 0 = Serves fd t →
  NUL ∉ t →
  (length t ≤ 4095)%nat →
  (∀ flag, flag ∈ [str "-r"; str "--raw"] →
     ∃ w, main P frames [prog; flag] boot = Some (Some 0, w) ∧
          stdout_text (trace w) = t ∧
          stderr_text (trace w) = []) ∧
  (∃ w, main P frames [prog] boot = Some (Some 0, w) ∧
        stdout_text (trace w) = concat live_view ++ [LF] ++ t ++ [LF] ∧
        contains (stdout_text (trace w)) t ∧
        stderr_text (trace w) = []).
Proof.
  intros Hep Hnul Hlen. split.
  - intros flag Hflag.
    destruct (main_raw_run P frames prog flag Hflag) as (w & Hrun & Htrace).
    exists w. rewrite Htrace. split; [done|].
    destruct (stdout_fetch_raw P 1 0%nat fd t Hep) as [-> ->]; [done|].
    by rewrite shown_short.
  - destruct (main_default_run P frames prog) as (w & Hrun & Htrace).
    exists w. rewrite Htrace. split; [done|].
    destruct (stdout_fetch_decorated P 0%nat fd t Hep) as [-> ->].
    rewrite shown_short by done. split; [done|]. split; [|done].
    exists (concat live_view ++ [LF]), [LF]. by rewrite <- app_assoc.
Qed.

Lemma raw_and_decorated_output_witness :
  (∀ flag, flag ∈ [str "-r"; str "--raw"] →
     ∃ w, main (serving (str "snapshot")) 0 [str "monitor_app"; flag] boot =
            Some (Some 0, w) ∧
          stdout_text (trace w) = str "snapshot" ∧
          stderr_text (trace w) = []) ∧
  (∃ w, main (serving (str "snapshot")) 0 [str "monitor_app"] boot =
          Some (Some 0, w) ∧
        stdout_text (trace w) =
          concat live_view ++ [LF] ++ str "snapshot" ++ [LF] ∧
        contains (stdout_text (trace w)) (str "snapshot") ∧
        stderr_text (trace w) = []).
Proof.
  apply (raw_and_decorated_output (serving (str "snapshot")) 0
           (str "monitor_app") 3 (str "snapshot")).
  - reflexivity.
  - intros H. apply list_elem_of_In in H. simpl in H.
    repeat (destruct H as [H|H]; [discriminate H|]). exact H.
  - simpl. lia.
Defined.

(** C8, as the specification words it (for every successful fetch): a
    provider text of 5000 bytes is fetched successfully and the "--raw"
    output is not that text. *)
Lemma raw_output_is_not_long_text :
  ∃ w,
    main (serving long_text) 0 [str "monitor_app"; str "--raw"] boot =
      Some (Some 0, w) ∧
    stdout_text (trace w) ≠ long_text.
Proof.
  destruct (main_raw_run (serving long_text) 0 (str "monitor_app") (str "--raw"))
    as (w & Hrun & Htrace).
  { apply list_elem_of_further, list_elem_of_here. }
  exists w. split; [exact Hrun|]. rewrite Htrace.
  intros H. apply (f_equal length) in H. vm_compute in H. discriminate.
Qed.

(** C10: [read_kernel_data], given the 4096-byte buffer, asks for 4095
    bytes in the one [read] it issues and stores the terminator at the
    index [read] returned, which is at most 4095 and so inside the buffer
    (the run never leaves the bounds of the array); a provider text of
    more than 4095 bytes therefore reaches the output stream cut to its
    first 4095 bytes, in raw and in decorated mode, and nothing is written
    to the error stream about it. *)
Theorem fetch_is_one_bounded_read P w buffer :
  length buffer = Z.to_nat BUFFER_SIZE →
  (∃ n buffer' w' evs,
     read_kernel_data P buffer BUFFER_SIZE w = Some ((n, buffer'), w') ∧
     trace w' = trace w ++ evs ∧
     reads evs = match endpoint_at P (opens w) with
                 | OpenFails _ => []
                 | ReadFails fd _ | Serves fd _ => [SysRead (Z.of_N fd) 4095]
                 end ∧
     length buffer' = length buffer ∧
     (0 ≤ n → n ≤ 4095 ∧ buffer' !! Z.to_nat n = Some NUL)) ∧
  (∀ raw fd t,
     endpoint_at P (opens w) = Serves fd t →
     NUL ∉ t →
     (4095 < length t)%nat →
     ∃ w',
       display_data P raw w = Some (tt, w') ∧
       stdout_text (trace w') =
         stdout_text (trace w) ++
         (if raw =? 0 then concat live_view ++ [LF] ++ take 4095 t ++ [LF]
          else take 4095 t) ∧
       stderr_text (trace w') = stderr_text (trace w) ∧
       take 4095 t ≠ t).
Proof.
  intros Hlen. change (Z.to_nat BUFFER_SIZE) with 4096%nat in Hlen. split.
  - destruct (endpoint_at P (opens w)) as [e|fd e|fd t] eqn:Hep.
    + eexists _, _, _, _. split; [by apply read_kernel_data_open_fails|].
      cbn [after trace]. split; [done|]. split; [done|]. split; [done|]. lia.
    + eexists _, _, _, _. split; [by apply read_kernel_data_read_fails|].
      cbn [after trace]. split; [done|]. split; [done|]. split; [done|]. lia.
    + eexists _, _, _, _. split.
      { apply read_kernel_data_serves; [done|].
        change (Z.to_nat (wrap64 (BUFFER_SIZE - 1))) with 4095%nat. lia. }
      change (Z.to_nat (wrap64 (BUFFER_SIZE - 1))) with 4095%nat.
      cbn [after trace]. split; [done|]. split; [done|].
      assert (length (take (Nat.min 4095 (length t)) t ++
                      drop (Nat.min 4095 (length t)) buffer) = length buffer) as Hl.
      { rewrite length_app, length_take, length_drop. lia. }
      split; [by rewrite length_insert|].
      intros _. split; [lia|]. rewrite Nat2Z.id.
      apply list_lookup_insert_eq. lia.
  - intros raw fd t Hep Hnul Hlong.
    destruct (display_data_run P raw w) as (e & tb & Hrun).
    eexists. split; [exact Hrun|]. cbn [after trace].
    rewrite stdout_text_app, stderr_text_app.
    destruct (Z.eqb_spec raw 0) as [->|Hraw].
    + destruct (stdout_fetch_decorated P (opens w) fd t Hep) as [-> ->].
      rewrite shown_long, app_nil_r by done. split; [done|]. split; [done|].
      intros Heq. apply (f_equal length) in Heq. rewrite length_take in Heq. lia.
    + destruct (stdout_fetch_raw P raw (opens w) fd t Hep Hraw) as [-> ->].
      rewrite shown_long, app_nil_r by done. split; [done|]. split; [done|].
      intros Heq. apply (f_equal length) in Heq. rewrite length_take in Heq. lia.
Qed.

Lemma fetch_is_one_bounded_read_witness :
  ∃ w',
    display_data (serving long_text) 1 boot = Some (tt, w') ∧
    stdout_text (trace w') = replicate 4095 "a"%char ∧
    stderr_text (trace w') = [].
Proof.
  destruct (fetch_is_one_bounded_read (serving long_text) boot
              (replicate 4096 NUL)) as [_ Hcut]; [reflexivity|].
  destruct (Hcut 1 3%N long_text) as (w' & Hrun & Hout & Herr & _).
  - reflexivity.
  - intros H. apply elem_of_replicate in H as [H _]. discriminate H.
  - unfold long_text. rewrite length_replicate. lia.
  - exists w'. split; [exact Hrun|]. split; [exact Hout | exact Herr].
Defined.

End main_claims.

(** ** The client: the option loop ends and [main] is defined *)

Section main_total.

Variable P : platform.

Lemma chr_inj a b : chr a = chr b → a = b.
Proof.
  unfold chr. intros H. apply Nat2Z.inj in H.
  rewrite <- (ascii_nat_embedding a), <- (ascii_nat_embedding b). by rewrite H.
Qed.

Lemma weight_cons a l : weight (a :: l) = (S (length a) + weight l)%nat.
Proof. unfold weight. cbn. rewrite length_app. lia. Qed.

Lemma weight_drop_lookup (argv : list text) i a :
  argv !! i = Some a →
  weight (drop i argv) = (S (length a) + weight (drop (S i) argv))%nat.
Proof. intros H. by rewrite (drop_S _ _ _ H), weight_cons. Qed.

Lemma weight_drop_S (argv : list text) i :
  (weight (drop (S i) argv) ≤ weight (drop i argv))%nat.
Proof.
  destruct (argv !! i) as [a|] eqn:H.
  - rewrite (weight_drop_lookup _ _ _ H). lia.
  - apply lookup_ge_None in H. rewrite !drop_ge by lia. done.
Qed.

Lemma next_option_drop (argv : list text) : ∀ l i,
  drop i argv = l →
  (i ≤ next_option l i)%nat ∧
  (weight (drop (next_option l i) argv) ≤ weight (drop i argv))%nat.
Proof.
  induction l as [|a l IH]; intros i Hl; [done|]. cbn [next_option].
  destruct (nonoption a); [|done].
  assert (drop (S i) argv = l) as Hl'.
  { replace (S i) with (i + 1)%nat by lia. rewrite <- drop_drop, Hl. done. }
  destruct (IH (S i) Hl') as [Hle Hw]. split; [lia|].
  pose proof (weight_drop_S argv i). lia.
Qed.

Lemma weight_drop_le (argv : list text) i j :
  (i ≤ j)%nat → (weight (drop j argv) ≤ weight (drop i argv))%nat.
Proof.
  induction 1 as [|j _ IH]; [done|].
  pose proof (weight_drop_S argv j). lia.
Qed.

Lemma find_long_elem nm opts o : find_long nm opts = Some o → o ∈ opts.
Proof.
  unfold find_long.
  destruct (filter (λ o, text_eqb nm (name o) = true) opts) as [|o1 l1] eqn:H1.
  - destruct (filter (λ o, is_prefix nm (name o) = true) opts) as [|o2 [|? ?]] eqn:H2;
      [done| |done].
    intros [= <-].
    assert (o2 ∈ filter (λ o, is_prefix nm (name o) = true) opts) as Hin
      by (rewrite H2; apply list_elem_of_here).
    by apply list_elem_of_filter in Hin as [_ ?].
  - intros [= <-].
    assert (o1 ∈ filter (λ o, text_eqb nm (name o) = true) opts) as Hin
      by (rewrite H1; apply list_elem_of_here).
    by apply list_elem_of_filter in Hin as [_ ?].
Qed.

Ltac weigh := unfold pending, weight in *; cbn [length] in *; lia.

Lemma getopt_short_progress argv c rest w :
  ∃ r w',
    getopt_short P argv (str "hvrw:") c rest w = Some (r, w') ∧
    scan_step argv (length rest + weight (drop (optind w) argv)) r w'.
Proof.
  unfold getopt_short, scan_step, pending. rewrite bind_gets.
  destruct (short_lookup c (str "hvrw:")) as [[|]|] eqn:Hlookup.
  - eexists _, _. split; [reflexivity|]. cbn. split; [weigh|].
    intros ->%chr_inj. vm_compute in Hlookup. discriminate.
  - destruct rest as [|c' rest].
    + destruct (argv !! optind w) as [arg|] eqn:Harg.
      * eexists _, _. split; [reflexivity|]. cbn. split; [|eauto].
        pose proof (weight_drop_S argv (optind w)). weigh.
      * eexists _, _. split; [reflexivity|]. cbn. split; [weigh|].
        intros H. vm_compute in H. discriminate.
    + eexists _, _. split; [reflexivity|]. cbn. split; [weigh | eauto].
  - eexists _, _. split; [reflexivity|]. cbn. split; [weigh|].
    intros H. vm_compute in H. discriminate.
Qed.

Lemma getopt_long_option_progress argv body ind w :
  ∃ r w',
    getopt_long_option P argv long_options body ind w = Some (r, w') ∧
    scan_step argv (weight (drop ind argv)) r w'.
Proof.
  unfold getopt_long_option, scan_step, pending.
  destruct (find_long (split_eq body).1 long_options) as [o|] eqn:Hfind.
  - apply find_long_elem in Hfind.
    assert (has_arg o = required_argument ∨
            has_arg o = no_argument ∧ val o ≠ "w"%char) as Ho.
    { unfold long_options in Hfind.
      repeat (apply elem_of_cons in Hfind as [->|Hfind];
              [first [by left | by right]|]).
      by apply elem_of_nil in Hfind. }
    destruct (has_arg o), (split_eq body).2 as [v|].
    + eexists _, _. split; [reflexivity|]. cbn. split; [weigh|].
      intros H. vm_compute in H. discriminate.
    + eexists _, _. split; [reflexivity|]. cbn. split; [weigh|].
      intros H%chr_inj. destruct Ho as [?|[_ ?]]; done.
    + eexists _, _. split; [reflexivity|]. cbn. split; [weigh | eauto].
    + destruct (argv !! ind) as [arg|] eqn:Harg.
      * eexists _, _. split; [reflexivity|]. cbn. split; [|eauto].
        pose proof (weight_drop_S argv ind). weigh.
      * eexists _, _. split; [reflexivity|]. cbn. split; [weigh|].
        intros H. vm_compute in H. discriminate.
  - eexists _, _. split; [reflexivity|]. cbn. split; [weigh|].
    intros H. vm_compute in H. discriminate.
Qed.

(** A call of [getopt_long] returns; unless it returns -1, less is left
    to scan than before. *)
Lemma getopt_long_progress argv w :
  ∃ r w',
    getopt_long P argv (str "hvrw:") long_options w = Some (r, w') ∧
    (r = -1 ∨ (pending argv w' < pending argv w)%nat) ∧
    (r = chr "w" → is_Some (optarg w')).
Proof.
  unfold getopt_long. rewrite bind_gets.
  destruct (nextchar w) as [|c rest] eqn:Hnext.
  - rewrite bind_gets.
    destruct (next_option_drop argv (drop (optind w) argv) (optind w) eq_refl)
      as [Hle Hweight].
    set (ind := next_option (drop (optind w) argv) (optind w)) in *.
    destruct (argv !! ind) as [arg|] eqn:Harg.
    + pose proof (weight_drop_lookup argv ind arg Harg) as Hw.
      destruct arg as [|c0 [|d body]].
      * eexists _, _. split; [reflexivity|]. split; [by left|].
        intros H. vm_compute in H. discriminate.
      * eexists _, _. split; [reflexivity|]. split; [by left|].
        intros H. vm_compute in H. discriminate.
      * destruct (Ascii.eqb d "-").
        -- destruct body as [|b body].
           ++ eexists _, _. split; [reflexivity|]. split; [by left|].
              intros H. vm_compute in H. discriminate.
           ++ destruct (getopt_long_option_progress argv (b :: body) (S ind) w)
                as (r & w' & Hrun & Hpend & Harg').
              exists r, w'. split; [exact Hrun|]. split; [|done].
              right. unfold pending. rewrite Hnext.
              unfold pending in Hpend. cbn [length] in *. weigh.
        -- rewrite bind_run. cbn [set_getopt].
           match goal with |- context [getopt_short P argv _ d body ?w1] =>
             destruct (getopt_short_progress argv d body w1)
               as (r & w' & Hrun & Hpend & Harg') end.
           rewrite Hrun. exists r, w'. split; [done|]. split; [|done].
           right. unfold pending. rewrite Hnext. cbn [optind] in Hpend.
           weigh.
    + eexists _, _. split; [reflexivity|]. split; [by left|].
      intros H. vm_compute in H. discriminate.
  - destruct (getopt_short_progress argv c rest w) as (r & w' & Hrun & Hpend & Harg').
    exists r, w'. split; [exact Hrun|]. split; [|done].
    right. unfold pending. rewrite Hnext. cbn [length]. weigh.
Qed.

Lemma to_int32_range z : - 2 ^ 31 ≤ to_int32 z < 2 ^ 31.
Proof. unfold to_int32. pose proof (Z.mod_pos_bound (z + 2 ^ 31) (2 ^ 32)). lia. Qed.

Lemma print_usage_run prog w :
  ∃ evs, print_usage prog w = Some (tt, after w evs (opens w) (errno w) (fds w)).
Proof.
  unfold print_usage. do 9 (rewrite bind_run, printf_run; io_norm).
  rewrite printf_run. io_norm. eauto.
Qed.

Lemma print_version_run w :
  ∃ evs, print_version w = Some (tt, after w evs (opens w) (errno w) (fds w)).
Proof.
  unfold print_version. rewrite bind_run, printf_run. io_norm.
  rewrite printf_run. io_norm. eauto.
Qed.

(** The [switch]: it is defined whenever the option [w] comes with its
    argument, it leaves the scan where it was, and the interval it hands
    on is an [int]. *)
Lemma main_switch_run argv opt raw wi w :
  (opt = chr "w" → is_Some (optarg w)) →
  - 2 ^ 31 ≤ wi < 2 ^ 31 →
  ∃ r w',
    main_switch argv opt raw wi w = Some (r, w') ∧
    pending argv w' = pending argv w ∧
    ∀ vars, r = inr vars → - 2 ^ 31 ≤ vars.2 < 2 ^ 31.
Proof.
  intros Harg Hwi. unfold main_switch.
  destruct (opt =? chr "h").
  { rewrite bind_run. destruct (print_usage_run (default [] (argv !! 0%nat)) w) as [evs ->].
    rewrite ret_run. eexists _, _. split; [reflexivity|]. split; [done|]. intros ? [=]. }
  destruct (opt =? chr "v").
  { rewrite bind_run. destruct (print_version_run w) as [evs ->].
    rewrite ret_run. eexists _, _. split; [reflexivity|]. split; [done|]. intros ? [=]. }
  destruct (opt =? chr "r").
  { rewrite ret_run. eexists _, _. split; [reflexivity|]. split; [done|]. by intros ? [= <-]. }
  destruct (Z.eqb_spec opt (chr "w")) as [Hopt|_].
  { destruct (Harg Hopt) as [arg Hoptarg]. rewrite bind_gets, Hoptarg.
    destruct (atoi arg <=? 0).
    - rewrite bind_run, fprintf_stderr_run, ret_run.
      eexists _, _. split; [reflexivity|]. split; [done|]. intros ? [=].
    - rewrite ret_run. eexists _, _. split; [reflexivity|]. split; [done|].
      intros ? [= <-]. apply to_int32_range. }
  rewrite bind_run. destruct (print_usage_run (default [] (argv !! 0%nat)) w) as [evs ->].
  rewrite ret_run. eexists _, _. split; [reflexivity|]. split; [done|]. intros ? [=].
Qed.

(** The option loop ends within its fuel. *)
Lemma main_options_total argv : ∀ fuel raw wi w,
  (pending argv w < fuel)%nat →
  - 2 ^ 31 ≤ wi < 2 ^ 31 →
  ∃ r w',
    main_options P fuel argv raw wi w = Some (r, w') ∧
    ∀ vars, r = inr vars → - 2 ^ 31 ≤ vars.2 < 2 ^ 31.
Proof.
  induction fuel as [|fuel IH]; intros raw wi w Hfuel Hwi; [lia|].
  cbn [main_options]. rewrite bind_run.
  destruct (getopt_long_progress argv w) as (opt & w1 & -> & Hless & Harg).
  destruct (Z.eqb_spec opt (-1)) as [->|Hopt].
  { eexists _, _. split; [reflexivity|]. by intros ? [= <-]. }
  destruct Hless as [?|Hless]; [done|].
  rewrite bind_run.
  destruct (main_switch_run argv opt raw wi w1 Harg Hwi)
    as (r & w2 & -> & Hpending & Hint).
  destruct r as [code|vars].
  - eexists _, _. split; [reflexivity|]. intros ? [=].
  - apply IH; [lia|]. by apply Hint.
Qed.

(** [main] is defined on every command line and every platform: the
    option loop ends, no store leaves the buffer, no string lacks its
    terminator; it returns a status, or is in [watch_mode] for good. *)
Lemma main_total frames argv : ∃ r w, main P frames argv boot = Some (r, w).
Proof.
  unfold main. rewrite bind_run.
  destruct (main_options_total argv (getopt_fuel argv) 0 0 boot)
    as (r & w & -> & Hint).
  { unfold pending, getopt_fuel. cbn [nextchar optind boot length].
    pose proof (weight_drop_le argv 0 1). rewrite drop_0 in *. weigh. }
  { lia. }
  destruct r as [code|vars]; [by eexists _, _|].
  destruct (Z.ltb_spec 0 vars.2) as [Hpos|_].
  - rewrite bind_run.
    destruct (watch_mode_run P vars.2 frames w) as (e & t & ->).
    { specialize (Hint vars eq_refl). lia. }
    by eexists _, _.
  - rewrite bind_run. destruct (display_data_run P vars.1 w) as (e & t & ->).
    by eexists _, _.
Qed.

End main_total.

(** ** The two programs together *)

Section system.
Import kernel_monitor snapshot.

(** The client run with "--raw" against the entry that serves the text
    [proc_show] has just rendered: it prints the first 4095 bytes of that
    text, hence all of it when it is no longer than that. *)
Lemma client_shows_snapshot P frames prog k st fd :
  kernel_wf (heap st) (tasks k) →
  Forall (λ t, NUL ∉ comm t) (tasks k) →
  ktrace st = [] →
  ∃ st',
    proc_show k st = Some (0, st') ∧
    (endpoint_at P 0 = Serves fd (seq_text (ktrace st')) →
     ∃ w,
       main P frames [prog; str "--raw"] boot = Some (Some 0, w) ∧
       stdout_text (trace w) = take 4095 (seq_text (ktrace st')) ∧
       ((length (seq_text (ktrace st')) ≤ 4095)%nat →
        stdout_text (trace w) = seq_text (ktrace st'))).
Proof.
  intros Hwf Hcomm Hempty.
  destruct (snapshot_nul_free k st Hwf Hcomm) as (st' & new & Hrun & Htrace & Hnul).
  exists st'. split; [exact Hrun|]. intros Hep.
  rewrite Htrace, Hempty in *. cbn [app] in *.
  destruct (main_raw_run P frames prog (str "--raw")) as (w & Hmain & Hevents).
  { apply list_elem_of_further, list_elem_of_here. }
  exists w. split; [exact Hmain|]. rewrite Hevents.
  destruct (stdout_fetch_raw P 1 0%nat fd (seq_text new) Hep) as [-> _]; [done|].
  rewrite shown_long by done. split; [done|].
  intros Hlen. by rewrite take_ge.
Qed.

End system.

(** ** The C library models: [atoi] reads back what [%d] prints *)

Section decimal.

Lemma digits_value_acc d : ∀ p,
  digits_value (Z.pos p) (str (NilEmpty.string_of_uint d)) =
    Z.pos (Pos.of_uint_acc d p).
Proof.
  induction d; intros p; cbn [NilEmpty.string_of_uint Pos.of_uint_acc];
    [reflexivity| ..];
    cbn [str list_ascii_of_string digits_value];
    match goal with |- context [isdigit ?c] => change (isdigit c) with true end;
    cbn match; fold (str (NilEmpty.string_of_uint d)); rewrite <- IHd;
    f_equal;
    repeat match goal with |- context [chr ?c] =>
      let v := eval vm_compute in (chr c) in change (chr c) with v end;
    lia.
Qed.

Lemma digits_value_uint d :
  digits_value 0 (str (NilEmpty.string_of_uint d)) = Z.of_uint d.
Proof.
  unfold Z.of_uint.
  induction d; cbn [NilEmpty.string_of_uint Pos.of_uint];
    [reflexivity| ..];
    cbn [str list_ascii_of_string digits_value];
    match goal with |- context [isdigit ?c] => change (isdigit c) with true end;
    cbn match; fold (str (NilEmpty.string_of_uint d));
    first [ exact IHd
          | match goal with |- digits_value ?a _ = _ =>
              let a' := eval vm_compute in a in change a with a' end;
            rewrite digits_value_acc; reflexivity ].
Qed.

Lemma skip_spaces_uint d :
  skip_spaces (str (NilEmpty.string_of_uint d)) = str (NilEmpty.string_of_uint d).
Proof. destruct d; reflexivity. Qed.

Lemma strtol_uint d :
  strtol (str (NilEmpty.string_of_uint d)) = Z.min (Z.of_uint d) (2 ^ 63 - 1).
Proof.
  unfold strtol. rewrite skip_spaces_uint.
  destruct (str (NilEmpty.string_of_uint d)) as [|c rest] eqn:Hs.
  - destruct d; try discriminate Hs. reflexivity.
  - rewrite <- Hs, digits_value_uint.
    destruct d; try discriminate Hs; injection Hs as <- _; reflexivity.
Qed.

(** [strtol] reads back the decimal numeral of any [long]. *)
Lemma strtol_fmt_d z : - 2 ^ 63 ≤ z < 2 ^ 63 → strtol (fmt_d z) = z.
Proof.
  intros Hz. unfold fmt_d.
  pose proof (DecimalZ.of_to z) as Hback.
  destruct (Z.to_int z) as [d|d]; cbn [NilEmpty.string_of_int Z.of_int] in *.
  - rewrite strtol_uint, Hback. lia.
  - unfold strtol. cbn [str list_ascii_of_string skip_spaces].
    change (isspace "-") with false. cbn match.
    change (Ascii.eqb "-" "-") with true. cbn match.
    fold (str (NilEmpty.string_of_uint d)). rewrite digits_value_uint. lia.
Qed.

Lemma atoi_fmt_d z : - 2 ^ 31 ≤ z < 2 ^ 31 → atoi (fmt_d z) = z.
Proof.
  intros Hz. unfold atoi. rewrite strtol_fmt_d by lia.
  unfold to_int32. rewrite Z.mod_small by lia. lia.
Qed.

End decimal.

(** ** The client: further properties of a fetch *)

Section fetch_properties.

(** X1: [read_kernel_data] keeps to the buffer it is given, for any
    [size] from 1 up to the length of the buffer: on failure it returns -1
    and leaves the buffer as it was; on success it returns the number [n]
    of bytes read, at most [size - 1], the buffer then starts with the
    first [n] bytes of the text, holds NUL at index [n], and is unchanged
    beyond. *)
Theorem read_kernel_data_contract P buffer size w :
  1 ≤ size < 2 ^ 64 →
  size ≤ Z.of_nat (length buffer) →
  ∃ n buffer' w',
    read_kernel_data P buffer size w = Some ((n, buffer'), w') ∧
    length buffer' = length buffer ∧
    match endpoint_at P (opens w) with
    | Serves _ t =>
        n = Z.min (size - 1) (Z.of_nat (length t)) ∧
        take (Z.to_nat n) buffer' = take (Z.to_nat n) t ∧
        buffer' !! Z.to_nat n = Some NUL ∧
        drop (S (Z.to_nat n)) buffer' = drop (S (Z.to_nat n)) buffer
    | _ => n = -1 ∧ buffer' = buffer
    end.
Proof.
  intros Hsize Hfit.
  destruct (endpoint_at P (opens w)) as [e|fd e|fd t] eqn:Hep.
  - eexists _, _, _. split; [by apply read_kernel_data_open_fails|]. done.
  - eexists _, _, _. split; [by apply read_kernel_data_read_fails|]. done.
  - assert (wrap64 (size - 1) = size - 1) as Hwrap by (apply wrap64_small; lia).
    eexists _, _, _. split.
    { apply read_kernel_data_serves; [done|]. rewrite Hwrap. lia. }
    rewrite Hwrap.
    set (n := Nat.min (Z.to_nat (size - 1)) (length t)).
    assert (length (take n t ++ drop n buffer) = length buffer) as Hlen.
    { rewrite length_app, length_take, length_drop. lia. }
    assert (length (take n t) = n) as Htake by (rewrite length_take; lia).
    split; [by rewrite length_insert|].
    split; [lia|]. rewrite Nat2Z.id.
    split; [|split].
    + rewrite take_insert_ge by lia. rewrite take_app_le by lia.
      rewrite take_take. f_equal. lia.
    + apply list_lookup_insert_eq. lia.
    + rewrite drop_insert_lt by lia.
      rewrite drop_app_ge by lia. rewrite Htake, drop_drop. f_equal. lia.
Qed.

Lemma read_kernel_data_contract_witness :
  ∃ n buffer' w',
    read_kernel_data (serving (str "snapshot")) (str "0123456789") 4 boot =
      Some ((n, buffer'), w') ∧
    n = 3 ∧ buffer' = str "sna" ++ [NUL] ++ str "456789".
Proof.
  destruct (read_kernel_data_contract (serving (str "snapshot")) (str "0123456789") 4 boot)
    as (n & buffer' & w' & Hrun & _ & _); [lia | simpl; lia |].
  exists n, buffer', w'. split; [exact Hrun|].
  vm_compute in Hrun. injection Hrun as <- <- _. split; reflexivity.
Defined.

(** One call of [display_data], with the descriptor table it leaves. *)
Lemma display_data_table P raw w :
  ∃ e,
    display_data P raw w =
      Some (tt, after w (fetch_events P raw (opens w)) (S (opens w)) e
                      (closed_table (endpoint_at P (opens w)) (fds w))).
Proof.
  unfold display_data, fetch_events, closed_table.
  rewrite bind_run, local_array_run.
  set (buffer := resize (Z.to_nat BUFFER_SIZE) NUL (stack_at P (opens w))).
  assert (length buffer = 4096%nat) as Hlen by apply length_resize.
  rewrite bind_run.
  destruct (endpoint_at P (opens w)) as [e|fd e|fd t] eqn:Hep.
  - rewrite (read_kernel_data_open_fails _ _ _ _ e Hep). cbn [fst snd].
    change (-1 <? 0) with true. cbn match. rewrite ret_run. eauto.
  - rewrite (read_kernel_data_read_fails _ _ _ _ fd e Hep). cbn [fst snd].
    change (-1 <? 0) with true. cbn match. rewrite ret_run, delete_insert_eq. eauto.
  - change (wrap64 (BUFFER_SIZE - 1)) with 4095.
    rewrite (read_kernel_data_serves _ _ _ _ fd t Hep);
      change (wrap64 (BUFFER_SIZE - 1)) with 4095;
      change (Z.to_nat 4095) with 4095%nat; [|lia].
    cbn [fst snd]. rewrite delete_insert_eq.
    set (n := Nat.min 4095 (length t)).
    destruct (Z.ltb_spec (Z.of_nat n) 0) as [Hneg|_]; [lia|].
    unfold string_arg, n. rewrite c_string_after_read by lia. fold (shown t).
    destruct (Z.eqb_spec raw 0) as [->|Hraw]; cbn [negb].
    + do 6 (rewrite bind_run, printf_run; io_norm).
      rewrite bind_run, ret_run, printf_run. io_norm. eauto.
    + rewrite bind_run, ret_run, printf_run. io_norm. eauto.
Qed.

Lemma closed_table_fresh ep t : fresh_fd ep t → closed_table ep t = t.
Proof. destruct ep; cbn; [done| |]; apply delete_id. Qed.

Lemma watch_loop_table P interval frames : ∀ w,
  (∀ n, fresh_fd (endpoint_at P n) (fds w)) →
  ∃ w', watch_loop P frames interval w = Some (tt, w') ∧ fds w' = fds w.
Proof.
  induction frames as [|frames IH]; intros w Hfresh.
  - exists w. done.
  - cbn [watch_loop]. rewrite bind_run.
    destruct (display_data_table P 0 w) as (e & ->).
    rewrite closed_table_fresh by done.
    rewrite bind_run, sleep_run. io_norm.
    match goal with |- context [watch_loop P frames interval ?w1] =>
      destruct (IH w1) as (w' & -> & Hfds); [done|] end.
    exists w'. done.
Qed.

(** X2: a fetch closes the descriptor it opened, on the success path and
    on the read-failure path alike: after [display_data] the descriptor
    table is what it was, provided [open] hands out a descriptor that was
    not in use; and so it is after any number of turns of the watch loop. *)
Theorem descriptors_are_closed P raw interval frames w :
  (∀ n, fresh_fd (endpoint_at P n) (fds w)) →
  (∃ w', display_data P raw w = Some (tt, w') ∧ fds w' = fds w) ∧
  (∃ w', watch_mode P frames interval w = Some (tt, w') ∧ fds w' = fds w).
Proof.
  intros Hfresh. split.
  - destruct (display_data_table P raw w) as (e & ->).
    eexists. split; [reflexivity|]. cbn [after fds]. by apply closed_table_fresh.
  - unfold watch_mode.
    rewrite bind_run, printf_run, bind_run, printf_run, bind_run, sleep_run.
    io_norm.
    match goal with |- context [watch_loop P frames interval ?w1] =>
      destruct (watch_loop_table P interval frames w1) as (w' & -> & Hfds);
        [done|] end.
    exists w'. done.
Qed.

Lemma descriptors_are_closed_witness :
  (∃ w', display_data flaky 1 boot = Some (tt, w') ∧ fds w' = ∅) ∧
  (∃ w', watch_mode flaky 3 5 boot = Some (tt, w') ∧ fds w' = ∅).
Proof.
  apply (descriptors_are_closed flaky 1 5 3 boot).
  intros [|[|n]]; reflexivity.
Defined.

(** X3: what is printed never depends on the bytes that happened to be in
    the buffer before the read: with any other stack contents the same
    call leaves the same trace. *)
Theorem output_ignores_stale_buffer P garbage raw w :
  ∃ w1 w2,
    display_data P raw w = Some (tt, w1) ∧
    display_data (with_stack P garbage) raw w = Some (tt, w2) ∧
    trace w1 = trace w2.
Proof.
  destruct (display_data_run P raw w) as (e1 & t1 & ->).
  destruct (display_data_run (with_stack P garbage) raw w) as (e2 & t2 & ->).
  eexists _, _. split; [reflexivity|]. split; [reflexivity|].
  reflexivity.
Qed.

Lemma until_nul_prefix s : until_nul s `prefix_of` s.
Proof.
  induction s as [|c s IH]; cbn; [done|].
  destruct (Ascii.eqb c NUL); [apply prefix_nil | by apply prefix_cons].
Qed.

Lemma until_nul_free s : NUL ∉ until_nul s.
Proof.
  induction s as [|c s IH]; cbn; [apply not_elem_of_nil|].
  destruct (Ascii.eqb_spec c NUL) as [->|Hc]; [apply not_elem_of_nil|].
  apply not_elem_of_cons. split; [congruence | done].
Qed.

(** X4: whatever the entry serves, what "--raw" writes to the output
    stream is an initial part of the provider's text, has at most 4095
    bytes and no NUL among them; when the fetch fails it writes nothing
    there.  The status is 0 in every case. *)
Theorem raw_output_is_a_prefix P frames prog :
  ∃ w,
    main P frames [prog; str "--raw"] boot = Some (Some 0, w) ∧
    match endpoint_at P 0 with
    | Serves _ t =>
        stdout_text (trace w) `prefix_of` t ∧
        (length (stdout_text (trace w)) ≤ 4095)%nat ∧
        NUL ∉ stdout_text (trace w)
    | _ => stdout_text (trace w) = []
    end.
Proof.
  destruct (main_raw_run P frames prog (str "--raw")) as (w & Hrun & Htrace).
  { apply list_elem_of_further, list_elem_of_here. }
  exists w. split; [exact Hrun|]. rewrite Htrace.
  destruct (endpoint_at P 0) as [e|fd e|fd t] eqn:Hep.
  - unfold fetch_events. rewrite Hep. reflexivity.
  - unfold fetch_events. rewrite Hep. reflexivity.
  - destruct (stdout_fetch_raw P 1 0%nat fd t Hep) as [-> _]; [done|].
    unfold shown. split; [|split].
    + etrans; [apply until_nul_prefix | apply prefix_take].
    + etrans; [apply prefix_length, until_nul_prefix|].
      rewrite length_take. lia.
    + apply until_nul_free.
Qed.

End fetch_properties.

(** ** The client: what the option loop can and cannot do *)

Section option_loop.

Lemma quiet_ret {A} (a : A) (Q : A → Prop) : Q a → quiet (ret a) Q.
Proof.
  intros Ha w a' w' [= <- <-]. repeat split; [done|].
  exists []. by rewrite app_nil_r.
Qed.

Lemma quiet_fault {A} (Q : A → Prop) : quiet fault Q.
Proof. intros w a w' [=]. Qed.

Lemma quiet_bind {A B} (c : IO A) (k : A → IO B) (Q1 : A → Prop) (Q2 : B → Prop) :
  quiet c Q1 → (∀ a, Q1 a → quiet (k a) Q2) → quiet (c ≫= k) Q2.
Proof.
  intros Hc Hk w b w2. rewrite bind_run.
  destruct (c w) as [[a w1]|] eqn:Hrun; [|done]. intros Hrun2.
  destruct (Hc w a w1 Hrun) as (Ha & Ho1 & Hf1 & evs1 & Ht1 & Hp1).
  destruct (Hk a Ha w1 b w2 Hrun2) as (Hb & Ho2 & Hf2 & evs2 & Ht2 & Hp2).
  split; [done|]. split; [congruence|]. split; [congruence|].
  exists (evs1 ++ evs2). split; [by rewrite Ht2, Ht1, app_assoc|].
  by apply Forall_app.
Qed.

Lemma quiet_gets {A} (field : world → A) : quiet (gets field) (λ _, True).
Proof.
  intros w a w' [= <- <-]. repeat split. exists []. by rewrite app_nil_r.
Qed.

Lemma quiet_set_getopt ind next arg : quiet (set_getopt ind next arg) (λ _, True).
Proof.
  intros w a w' [= <- <-]. repeat split. exists []. cbn. by rewrite app_nil_r.
Qed.

Lemma quiet_printf s : quiet (printf s) (λ _, True).
Proof.
  intros w a w' [= <- <-]. repeat split. exists [Stdout s]. split; [done|].
  by repeat constructor.
Qed.

Lemma quiet_fprintf_stderr s : quiet (fprintf_stderr s) (λ _, True).
Proof.
  intros w a w' [= <- <-]. repeat split. exists [Stderr s]. split; [done|].
  by repeat constructor.
Qed.

Lemma quiet_weaken {A} (c : IO A) (Q1 Q2 : A → Prop) :
  quiet c Q1 → (∀ a, Q1 a → Q2 a) → quiet c Q2.
Proof.
  intros Hc Himp w a w' Hrun.
  destruct (Hc w a w' Hrun) as (Ha & ?). split; [by apply Himp | done].
Qed.

(** Take a computation apart along its binds and case distinctions. *)
Ltac quiet_step :=
  lazymatch goal with
  | |- quiet (_ ≫= _) _ => eapply quiet_bind; [|intros ? _]
  | |- quiet (gets _) _ => apply quiet_gets
  | |- quiet (set_getopt _ _ _) _ => apply quiet_set_getopt
  | |- quiet (printf _) _ => apply quiet_printf
  | |- quiet (fprintf_stderr _) _ => apply quiet_fprintf_stderr
  | |- quiet fault _ => apply quiet_fault
  | |- quiet (ret _) _ => apply quiet_ret; first [exact I | by left | by right]
  | |- quiet (match ?x with _ => _ end) _ => destruct x
  end.

Ltac quiet_steps := repeat quiet_step.

Lemma quiet_getopt_long P argv :
  quiet (getopt_long P argv (str "hvrw:") long_options) (λ _, True).
Proof. unfold getopt_long, getopt_long_option, getopt_short. quiet_steps. Qed.

Lemma quiet_print_usage prog : quiet (print_usage prog) (λ _, True).
Proof. unfold print_usage. quiet_steps. Qed.

Lemma quiet_print_version : quiet print_version (λ _, True).
Proof. unfold print_version. quiet_steps. Qed.

Lemma quiet_main_switch argv opt raw wi :
  quiet (main_switch argv opt raw wi) early_status.
Proof.
  unfold main_switch, early_status.
  repeat match goal with |- quiet (if ?b then _ else _) _ => destruct b end.
  - eapply quiet_bind; [apply quiet_print_usage|]. intros ? _.
    apply quiet_ret. by left.
  - eapply quiet_bind; [apply quiet_print_version|]. intros ? _.
    apply quiet_ret. by left.
  - by apply quiet_ret.
  - eapply quiet_bind; [apply quiet_gets|]. intros [arg|] _; [|apply quiet_fault].
    destruct (atoi arg <=? 0).
    + eapply quiet_bind; [apply quiet_fprintf_stderr|]. intros ? _.
      apply quiet_ret. by right.
    + by apply quiet_ret.
  - eapply quiet_bind; [apply quiet_print_usage|]. intros ? _.
    apply quiet_ret. by right.
Qed.

(** The option loop only prints: it opens nothing, and the only statuses
    it makes [main] return are 0 and 1. *)
Lemma quiet_main_options P argv : ∀ fuel raw wi,
  quiet (main_options P fuel argv raw wi) early_status.
Proof.
  induction fuel as [|fuel IH]; intros raw wi; cbn [main_options].
  - apply quiet_fault.
  - eapply quiet_bind; [apply quiet_getopt_long|]. intros opt _.
    destruct (opt =? -1); [by apply quiet_ret|].
    eapply quiet_bind; [apply quiet_main_switch|]. intros [code|vars] Hr.
    + by apply quiet_ret.
    + apply IH.
Qed.

End option_loop.

(** ** The client: command lines *)

Section command_lines.

(** The events of [print_usage] and of [print_version], whatever the
    world they start in. *)
Lemma print_usage_events prog :
  ∃ evs,
    (∀ w, print_usage prog w = Some (tt, after w evs (opens w) (errno w) (fds w))) ∧
    stdout_text evs = usage_text prog ∧ stderr_text evs = [] ∧
    Forall (λ e, is_print e = true) evs.
Proof.
  eexists. split.
  { intros w. unfold print_usage. do 9 (rewrite bind_run, printf_run; io_norm).
    rewrite printf_run. io_norm. reflexivity. }
  split; [|split; [reflexivity | by repeat constructor]].
  unfold usage_text, print_usage. do 9 (rewrite bind_run, printf_run; io_norm).
  rewrite printf_run. io_norm. reflexivity.
Qed.

Lemma print_version_events :
  ∃ evs,
    (∀ w, print_version w = Some (tt, after w evs (opens w) (errno w) (fds w))) ∧
    stdout_text evs = version_text ∧ stderr_text evs = [].
Proof.
  eexists. split.
  { intros w. unfold print_version. rewrite bind_run, printf_run. io_norm.
    rewrite printf_run. io_norm. reflexivity. }
  split; reflexivity.
Qed.

(** X5: the status [main] returns is 0 or 1 (or it is in the watch loop
    for good), and 1 comes only out of the option loop: when [main]
    returns 1 it has not opened the entry and has done nothing but
    print. *)
Theorem status_1_means_no_fetch P frames argv :
  ∃ r w,
    main P frames argv boot = Some (r, w) ∧
    (r = None ∨ r = Some 0 ∨ r = Some 1) ∧
    (r = Some 1 → opens w = 0%nat ∧ Forall (λ e, is_print e = true) (trace w)).
Proof.
  destruct (main_total P frames argv) as (r & w & Hmain).
  exists r, w. split; [exact Hmain|].
  unfold main in Hmain. rewrite bind_run in Hmain.
  destruct (main_options P (getopt_fuel argv) argv 0 0 boot) as [[r0 w0]|] eqn:Hopt;
    [|discriminate Hmain].
  destruct (quiet_main_options P argv _ _ _ _ _ _ Hopt)
    as (Hstatus & Hopens & _ & evs & Htrace & Hprints).
  destruct r0 as [code|vars].
  - injection Hmain as <- <-. cbn in Hstatus. split.
    + destruct Hstatus as [->| ->]; auto.
    + intros _. split; [done|]. by rewrite Htrace.
  - destruct (0 <? vars.2); rewrite bind_run in Hmain.
    + destruct (watch_mode P frames vars.2 w0) as [[? w1]|]; [|discriminate Hmain].
      injection Hmain as <- <-. split; [by left | discriminate].
    + destruct (display_data P vars.1 w0) as [[? w1]|]; [|discriminate Hmain].
      injection Hmain as <- <-. split; [right; by left | discriminate].
Qed.

Lemma status_1_means_no_fetch_witness :
  ∃ r w,
    main flaky 1 [str "monitor_app"; str "-w"; str "0"] boot = Some (r, w) ∧
    (r = None ∨ r = Some 0 ∨ r = Some 1) ∧
    (r = Some 1 → opens w = 0%nat ∧ Forall (λ e, is_print e = true) (trace w)).
Proof.
  apply (status_1_means_no_fetch flaky 1 [str "monitor_app"; str "-w"; str "0"]).
Defined.

(** X6: in one-shot mode a failed fetch does not show in the status:
    [main] still returns 0, with the diagnostic on the error stream and
    nothing on the output stream. *)
Theorem failed_one_shot_returns_0 P frames prog diag argv :
  failure P (endpoint_at P 0) = Some diag →
  argv ∈ [[prog]; [prog; str "-r"]; [prog; str "--raw"]] →
  ∃ w,
    main P frames argv boot = Some (Some 0, w) ∧
    stdout_text (trace w) = [] ∧
    stderr_text (trace w) = stderr_text diag.
Proof.
  intros Hfail Hargv.
  assert (∃ raw w, main P frames argv boot = Some (Some 0, w) ∧
                   trace w = fetch_events P raw 0) as (raw & w & Hrun & Htrace).
  { apply elem_of_cons in Hargv as [->|Hargv].
    { exists 0. apply main_default_run. }
    exists 1. apply elem_of_cons in Hargv as [->|Hargv].
    { apply main_raw_run. apply list_elem_of_here. }
    apply list_elem_of_singleton in Hargv as ->.
    apply main_raw_run. apply list_elem_of_further, list_elem_of_here. }
  exists w. split; [exact Hrun|]. rewrite Htrace. unfold fetch_events.
  destruct (endpoint_at P 0) as [e|fd e|fd t]; cbn [failure] in Hfail;
    [| |discriminate]; injection Hfail as <-; split; reflexivity.
Qed.

Lemma failed_one_shot_returns_0_witness :
  ∃ w,
    main absent 0 [str "monitor_app"] boot = Some (Some 0, w) ∧
    stdout_text (trace w) = [] ∧
    stderr_text (trace w) = stderr_text (open_diagnostic absent 2).
Proof.
  apply (failed_one_shot_returns_0 absent 0 (str "monitor_app") (open_diagnostic absent 2));
    [reflexivity | apply list_elem_of_here].
Defined.

(** The first [getopt_long] call on some command lines. *)
Lemma getopt_first_flag P prog flag c rest :
  (flag, c) ∈ [(str "-h", "h"%char); (str "--help", "h"%char);
               (str "-v", "v"%char); (str "--version", "v"%char)] →
  getopt_long P (prog :: flag :: rest) (str "hvrw:") long_options boot =
    Some (chr c,
          {| trace := []; opens := 0; errno := 0; fds := ∅;
             optind := 2; nextchar := []; optarg := None |}).
Proof.
  intros H. repeat (apply elem_of_cons in H as [[= -> ->]|H]; [reflexivity|]).
  by apply elem_of_nil in H.
Qed.

(** X7: "-h" or "--help" as the first argument prints the usage text and
    returns 0, "-v" or "--version" prints the two version lines and
    returns 0, whatever follows on the command line, valid or not; the
    entry is not opened and nothing goes to the error stream. *)
Theorem help_and_version_return_at_once P frames prog flag rest :
  flag ∈ [str "-h"; str "--help"; str "-v"; str "--version"] →
  ∃ w,
    main P frames (prog :: flag :: rest) boot = Some (Some 0, w) ∧
    stdout_text (trace w) =
      (if decide (flag ∈ [str "-h"; str "--help"]) then usage_text prog
       else version_text) ∧
    stderr_text (trace w) = [] ∧
    opens w = 0%nat.
Proof.
  intros Hflag.
  destruct (print_usage_events prog) as (usage & Husage & Hout & Herr & _).
  destruct print_version_events as (version & Hversion & Hvout & Hverr).
  unfold main, getopt_fuel. cbn [main_options]. rewrite !bind_run.
  apply elem_of_cons in Hflag as [->|Hflag];
    [|apply elem_of_cons in Hflag as [->|Hflag]];
    [| |apply elem_of_cons in Hflag as [->|Hflag];
         [|apply list_elem_of_singleton in Hflag as ->]].
  - rewrite (getopt_first_flag P prog _ "h"%char) by (repeat constructor).
    change (chr "h" =? -1) with false. cbn match. rewrite bind_run.
    unfold main_switch. change (chr "h" =? chr "h") with true. cbn match.
    cbn [lookup list_lookup default]. rewrite bind_run, Husage, !ret_run.
    eexists. split; [reflexivity|]. cbn [trace after app opens].
    rewrite decide_True by (repeat constructor). done.
  - rewrite (getopt_first_flag P prog _ "h"%char)
      by (apply list_elem_of_further; repeat constructor).
    change (chr "h" =? -1) with false. cbn match. rewrite bind_run.
    unfold main_switch. change (chr "h" =? chr "h") with true. cbn match.
    cbn [lookup list_lookup default]. rewrite bind_run, Husage, !ret_run.
    eexists. split; [reflexivity|]. cbn [trace after app opens].
    rewrite decide_True by (apply list_elem_of_further; repeat constructor). done.
  - rewrite (getopt_first_flag P prog _ "v"%char)
      by (do 2 apply list_elem_of_further; repeat constructor).
    change (chr "v" =? -1) with false. cbn match. rewrite bind_run.
    unfold main_switch. change (chr "v" =? chr "h") with false.
    change (chr "v" =? chr "v") with true. cbn match.
    rewrite bind_run, Hversion, !ret_run.
    eexists. split; [reflexivity|]. cbn [trace after app opens].
    rewrite decide_False; [done|].
    intros H. apply list_elem_of_In in H. cbn in H.
    repeat (destruct H as [H|H]; [discriminate H|]). done.
  - rewrite (getopt_first_flag P prog _ "v"%char)
      by (do 3 apply list_elem_of_further; repeat constructor).
    change (chr "v" =? -1) with false. cbn match. rewrite bind_run.
    unfold main_switch. change (chr "v" =? chr "h") with false.
    change (chr "v" =? chr "v") with true. cbn match.
    rewrite bind_run, Hversion, !ret_run.
    eexists. split; [reflexivity|]. cbn [trace after app opens].
    rewrite decide_False; [done|].
    intros H. apply list_elem_of_In in H. cbn in H.
    repeat (destruct H as [H|H]; [discriminate H|]). done.
Qed.

Lemma help_and_version_return_at_once_witness :
  ∃ w,
    main absent 0 [str "monitor_app"; str "--help"; str "--watch"; str "0"] boot =
      Some (Some 0, w) ∧
    stdout_text (trace w) = usage_text (str "monitor_app") ∧
    stderr_text (trace w) = [] ∧
    opens w = 0%nat.
Proof.
  apply (help_and_version_return_at_once absent 0 (str "monitor_app") (str "--help")
           [str "--watch"; str "0"]).
  apply list_elem_of_further, list_elem_of_here.
Defined.







Lemma next_option_operands args : ∀ ind,
  Forall (λ arg, nonoption arg = true) args →
  next_option args ind = (ind + length args)%nat.
Proof.
  induction args as [|arg args IH]; intros ind Hargs; cbn; [lia|].
  apply Forall_cons in Hargs as [-> Hargs]. rewrite IH by done. lia.
Qed.

(** X10: arguments that are not options (they do not start with "-", or
    are "-" alone) are passed over: with any number of them the client
    does what it does with none, one decorated fetch and status 0. *)
Theorem operands_are_ignored P frames prog args :
  Forall (λ arg, nonoption arg = true) args →
  ∃ w,
    main P frames (prog :: args) boot = Some (Some 0, w) ∧
    trace w = fetch_events P 0 0.
Proof.
  intros Hargs. unfold main, getopt_fuel. cbn [main_options]. rewrite !bind_run.
  assert (getopt_long P (prog :: args) (str "hvrw:") long_options boot =
          Some (-1,
                {| trace := []; opens := 0; errno := 0; fds := ∅;
                   optind := S (length args); nextchar := []; optarg := None |}))
    as ->.
  { unfold getopt_long. rewrite bind_gets. cbn [nextchar boot].
    rewrite bind_gets. cbn [optind boot drop].
    rewrite drop_0, next_option_operands by done. cbn [Nat.add].
    rewrite (proj2 (lookup_ge_None (prog :: args) (S (length args))))
      by (cbn; lia).
    reflexivity. }
  change (-1 =? -1) with true. cbn match. rewrite ret_run. cbn [fst snd].
  change (0 <? 0) with false. cbn match. rewrite bind_run.
  match goal with |- context [display_data P 0 ?w1] =>
    destruct (display_data_run P 0 w1) as (e & t & ->) end.
  rewrite ret_run. eexists. split; reflexivity.
Qed.

Lemma operands_are_ignored_witness :
  ∃ w,
    main (serving (str "snapshot")) 0
         [str "monitor_app"; str "now"; str "-"; str "please"] boot =
      Some (Some 0, w) ∧
    trace w = fetch_events (serving (str "snapshot")) 0 0.
Proof.
  apply (operands_are_ignored (serving (str "snapshot")) 0 (str "monitor_app")
           [str "now"; str "-"; str "please"]).
  repeat constructor.
Defined.

Lemma main_switch_watch argv raw wi w s :
  optarg w = Some s → 0 < atoi s →
  main_switch argv (chr "w") raw wi w = Some (inr (raw, atoi s), w).
Proof.
  intros Harg Hpos. unfold main_switch.
  change (chr "w" =? chr "h") with false. change (chr "w" =? chr "v") with false.
  change (chr "w" =? chr "r") with false. change (chr "w" =? chr "w") with true.
  cbn match. rewrite bind_gets, Harg.
  destruct (Z.leb_spec (atoi s) 0) as [?|_]; [lia|]. reflexivity.
Qed.

(** One turn of the option loop. *)
Lemma main_options_turn P fuel argv raw wi w opt w1 vars w2 :
  getopt_long P argv (str "hvrw:") long_options w = Some (opt, w1) →
  opt ≠ -1 →
  main_switch argv opt raw wi w1 = Some (inr vars, w2) →
  main_options P (S fuel) argv raw wi w = main_options P fuel argv vars.1 vars.2 w2.
Proof.
  intros Hget Hopt Hswitch. cbn [main_options]. rewrite bind_run, Hget.
  destruct (Z.eqb_spec opt (-1)) as [?|_]; [done|].
  rewrite bind_run, Hswitch. reflexivity.
Qed.

Lemma main_options_end P fuel argv raw wi w w1 :
  getopt_long P argv (str "hvrw:") long_options w = Some (-1, w1) →
  main_options P (S fuel) argv raw wi w = Some (inr (raw, wi), w1).
Proof. intros Hget. cbn [main_options]. rewrite bind_run, Hget. reflexivity. Qed.

(** The option loop on the command lines that ask for watch mode, with
    and without "-r". *)
Lemma main_options_watch P prog s argv :
  0 < atoi s →
  argv ∈ [[prog; str "-w"; s]; [prog; str "--watch"; s];
          [prog; str "-r"; str "-w"; s]; [prog; str "--watch"; s; str "--raw"]] →
  ∃ raw w0,
    main_options P (getopt_fuel argv) argv 0 0 boot = Some (inr (raw, atoi s), w0) ∧
    trace w0 = [] ∧ opens w0 = 0%nat.
Proof.
  intros Hpos Hargv. unfold getopt_fuel.
  repeat (apply elem_of_cons in Hargv as [->|Hargv]);
    [| | | |by apply elem_of_nil in Hargv]; cbn [length Nat.add].
  - erewrite main_options_turn;
      [|lazy; reflexivity|discriminate|by apply main_switch_watch].
    erewrite main_options_end; [|lazy; reflexivity]. eauto.
  - erewrite main_options_turn;
      [|lazy; reflexivity|discriminate|by apply main_switch_watch].
    erewrite main_options_end; [|lazy; reflexivity]. eauto.
  - erewrite main_options_turn; [|lazy; reflexivity|discriminate|reflexivity].
    erewrite main_options_turn;
      [|lazy; reflexivity|discriminate|by apply main_switch_watch].
    erewrite main_options_end; [|lazy; reflexivity]. eauto.
  - erewrite main_options_turn;
      [|lazy; reflexivity|discriminate|by apply main_switch_watch].
    erewrite main_options_turn; [|lazy; reflexivity|discriminate|reflexivity].
    erewrite main_options_end; [|lazy; reflexivity]. eauto.
Qed.

Lemma main_watch_run P frames prog s argv :
  0 < atoi s →
  argv ∈ [[prog; str "-w"; s]; [prog; str "--watch"; s];
          [prog; str "-r"; str "-w"; s]; [prog; str "--watch"; s; str "--raw"]] →
  ∃ w,
    main P frames argv boot = Some (None, w) ∧
    trace w = watch_banner (atoi s) ++ watch_frames P (atoi s) frames.
Proof.
  intros Hpos Hargv.
  destruct (main_options_watch P prog s argv Hpos Hargv)
    as (raw & w0 & Hopt & Htrace & Hopens).
  unfold main. rewrite bind_run, Hopt. cbn [fst snd].
  destruct (Z.ltb_spec 0 (atoi s)) as [_|?]; [|lia].
  rewrite bind_run.
  destruct (watch_mode_run P (atoi s) frames w0) as (e & t & ->).
  { pose proof (to_int32_range (strtol s)). unfold atoi in *. lia. }
  rewrite ret_run. eexists. split; [reflexivity|].
  cbn [after trace]. by rewrite Htrace, Hopens.
Qed.

(** X11: with an interval that [atoi] reads as positive, "-w" or "--watch"
    puts [main] into watch mode, which it does not leave: the banner
    names the interval, and each turn is a decorated fetch followed by a
    sleep of that many seconds.  "-r" or "--raw" on the same command
    line changes nothing: the frames are decorated all the same. *)
Theorem watch_mode_ignores_raw P frames prog s argv :
  0 < atoi s →
  argv ∈ [[prog; str "-w"; s]; [prog; str "--watch"; s];
          [prog; str "-r"; str "-w"; s]; [prog; str "--watch"; s; str "--raw"]] →
  ∃ w,
    main P frames argv boot = Some (None, w) ∧
    trace w =
      watch_banner (atoi s) ++
      flat_map (λ n, fetch_events P 0 n ++ [SysSleep (atoi s)]) (seq 0 frames).
Proof. apply main_watch_run. Qed.

Lemma watch_mode_ignores_raw_witness :
  ∃ w,
    main (serving (str "snapshot")) 1
         [str "monitor_app"; str "-r"; str "-w"; str "2"] boot = Some (None, w) ∧
    trace w =
      watch_banner 2 ++
      [SysOpen PROC_PATH; SysRead 3 4095; SysClose 3] ++ map Stdout live_view ++
      [Stdout ([LF] ++ str "snapshot" ++ [LF]); SysSleep 2].
Proof.
  apply (watch_mode_ignores_raw (serving (str "snapshot")) 1 (str "monitor_app")
           (str "2")); [by vm_compute|].
  do 2 apply list_elem_of_further. apply list_elem_of_here.
Defined.

(** X12: the interval is read back exactly as it is written in decimal:
    for every [n] from 1 to 2^31 - 1, "-w n" polls every [n] seconds and
    says so in its banner. *)
Theorem watch_interval_is_the_decimal_argument P frames prog n :
  0 < n < 2 ^ 31 →
  ∃ w,
    main P frames [prog; str "-w"; fmt_d n] boot = Some (None, w) ∧
    trace w =
      watch_banner n ++
      flat_map (λ k, fetch_events P 0 k ++ [SysSleep n]) (seq 0 frames).
Proof.
  intros Hn.
  destruct (main_watch_run P frames prog (fmt_d n) [prog; str "-w"; fmt_d n])
    as (w & Hrun & Htrace).
  { rewrite atoi_fmt_d; lia. }
  { apply list_elem_of_here. }
  exists w. split; [exact Hrun|]. rewrite Htrace, atoi_fmt_d by lia. reflexivity.
Qed.

Lemma watch_interval_is_the_decimal_argument_witness :
  ∃ w,
    main absent 1 [str "monitor_app"; str "-w"; str "86400"] boot = Some (None, w) ∧
    trace w =
      watch_banner 86400 ++
      [SysOpen PROC_PATH] ++ open_diagnostic absent 2 ++ [SysSleep 86400].
Proof.
  apply (watch_interval_is_the_decimal_argument absent 1 (str "monitor_app") 86400).
  lia.
Defined.

End command_lines.

(** ** The provider: further properties of a snapshot *)

Section snapshot_properties.
Import kernel_monitor snapshot.

Lemma entries_follow_tasks h ts :
  kernel_wf h ts →
  Forall2 (λ t e, e.1 = t ∧ ∃ p, mm t = Some p ∧ PF_KTHREAD t = false ∧
                                 h !! p = Some e.2)
          (filter (λ t, is_Some (mm t) ∧ PF_KTHREAD t = false) ts)
          (entries h ts).
Proof.
  induction ts as [|t ts IH]; intros Hwf; [constructor|].
  apply kernel_wf_cons in Hwf as [Ht Hts]. specialize (IH Hts).
  rewrite entries_cons, filter_cons. unfold mm_of in *.
  destruct (mm t) as [p|] eqn:Hmm.
  - destruct (PF_KTHREAD t) eqn:Hk.
    + rewrite decide_False by (intros [_ ?]; done). exact IH.
    + destruct (Ht p eq_refl) as (d & Hd & _). rewrite Hd.
      rewrite decide_True by (split; [by eexists | done]).
      constructor; [|exact IH]. split; [done|]. by exists p.
  - rewrite decide_False by (intros [[? ?] _]; done). exact IH.
Qed.

(** X13: the table has one row for each task that has a memory descriptor
    and is not a kernel thread, and for no other; the rows come in the
    order in which [for_each_process] visits the tasks. *)
Theorem rows_are_the_tasks_with_a_descriptor k st :
  kernel_wf (heap st) (tasks k) →
  ∃ st' rows footer,
    proc_show k st = Some (0, st') ∧
    seq_chunks (ktrace st') =
      seq_chunks (ktrace st) ++ header k ++ rows ++ [footer] ∧
    Forall2 (λ t row, ∃ p d, mm t = Some p ∧ heap st !! p = Some d ∧
                             row = row_format (comm t) (pid t)
                                              (wrap64 (total_vm d * 4)))
            (filter (λ t, is_Some (mm t) ∧ PF_KTHREAD t = false) (tasks k))
            rows.
Proof.
  intros Hwf. eexists _, _, _. split; [by apply proc_show_run|].
  cbn [ktrace]. split.
  { rewrite !seq_chunks_app, seq_chunks_printf, seq_chunks_tasks. reflexivity. }
  apply Forall2_fmap_r.
  eapply Forall2_impl; [by apply entries_follow_tasks|].
  intros t [t' d] [Heq (p & Hmm & _ & Hd)]. cbn [fst snd] in *. subst t'.
  by exists p, d.
Qed.

Lemma rows_are_the_tasks_with_a_descriptor_witness :
  ∃ st' rows footer,
    proc_show example_kernel (bashd_state 1 1 []) = Some (0, st') ∧
    seq_chunks (ktrace st') = header example_kernel ++ rows ++ [footer] ∧
    Forall2 (λ t row, ∃ p d, mm t = Some p ∧
                             heap (bashd_state 1 1 []) !! p = Some d ∧
                             row = row_format (comm t) (pid t)
                                              (wrap64 (total_vm d * 4)))
            [bashd 1] rows.
Proof.
  apply (rows_are_the_tasks_with_a_descriptor example_kernel (bashd_state 1 1 [])).
  exact example_state_wf.
Defined.

(** X14: [proc_show] keeps nothing from one call to the next and leaves
    the kernel's data as it found them: called again on the same kernel
    state it prints the same text again. *)
Theorem second_read_renders_the_same k st :
  kernel_wf (heap st) (tasks k) →
  ∃ st1 st2 new,
    proc_show k st = Some (0, st1) ∧
    proc_show k st1 = Some (0, st2) ∧
    ktrace st1 = ktrace st ++ new ∧
    ktrace st2 = ktrace st1 ++ new ∧
    heap st2 = heap st.
Proof.
  intros Hwf. eexists _, _, _. split; [by apply proc_show_run|].
  split; [by apply proc_show_run|]. cbn [ktrace heap]. done.
Qed.

Lemma second_read_renders_the_same_witness :
  ∃ st1 st2 new,
    proc_show example_kernel (bashd_state 1 1 []) = Some (0, st1) ∧
    proc_show example_kernel st1 = Some (0, st2) ∧
    ktrace st1 = new ∧
    ktrace st2 = ktrace st1 ++ new ∧
    heap st2 = {[ 1%N := {| total_vm := 2048; mm_users := 1 |} ]}.
Proof.
  apply (second_read_renders_the_same example_kernel (bashd_state 1 1 [])).
  exact example_state_wf.
Defined.

(** X15: the text of a snapshot is a C string: it holds no NUL byte, as
    long as no task name does. *)
Theorem snapshot_has_no_nul k st :
  kernel_wf (heap st) (tasks k) →
  Forall (λ t, NUL ∉ comm t) (tasks k) →
  ∃ st' new,
    proc_show k st = Some (0, st') ∧
    ktrace st' = ktrace st ++ new ∧
    NUL ∉ seq_text new.
Proof. apply snapshot_nul_free. Qed.

Lemma snapshot_has_no_nul_witness :
  ∃ st' new,
    proc_show example_kernel (bashd_state 1 1 []) = Some (0, st') ∧
    ktrace st' = new ∧
    NUL ∉ seq_text new.
Proof.
  apply (snapshot_has_no_nul example_kernel (bashd_state 1 1 []));
    [exact example_state_wf|].
  repeat constructor; by apply nul_free_check.
Defined.

Lemma left_justify_length width s :
  length (left_justify width s) = Nat.max width (length s).
Proof. unfold left_justify. rewrite length_app, length_replicate. lia. Qed.

Lemma left_justify_fits width s :
  (length s ≤ width)%nat →
  left_justify width s = s ++ replicate (width - length s) SP ∧
  length (left_justify width s) = width.
Proof. intros H. split; [done|]. rewrite left_justify_length. lia. Qed.



End snapshot_properties.

(** ** The two programs together: a long table *)

Section long_table.
Import kernel_monitor snapshot.

Lemma row_format_length name p kb : (43 ≤ length (row_format name p kb))%nat.
Proof.
  unfold row_format. rewrite !length_app, !left_justify_length. cbn [length]. lia.
Qed.

Lemma rows_length (es : list (task_struct * mm_struct)) :
  (43 * length es ≤
   length (concat (map (λ e, row_format (comm e.1) (pid e.1)
                                        (wrap64 (total_vm e.2 * 4))) es)))%nat.
Proof.
  induction es as [|e es IH]; cbn [map concat length]; [lia|].
  rewrite length_app.
  pose proof (row_format_length (comm e.1) (pid e.1) (wrap64 (total_vm e.2 * 4))).
  lia.
Qed.

Lemma header_length k : (432 ≤ length (concat (header k)))%nat.
Proof.
  unfold header. cbn [concat]. rewrite !length_app.
  repeat match goal with
         | |- context [length (str ?s)] =>
             let n := eval vm_compute in (length (str s)) in
             change (length (str s)) with n
         end.
  cbn [length]. lia.
Qed.

(** X17: a table of 85 rows or more does not fit the client's buffer: the
    text [proc_show] renders is then longer than 4095 bytes, and the
    client run with "--raw" against it prints its first 4095 bytes and
    not the rest. *)
Theorem a_long_table_is_cut P frames prog k st fd :
  kernel_wf (heap st) (tasks k) →
  Forall (λ t, NUL ∉ comm t) (tasks k) →
  ktrace st = [] →
  (85 ≤ length (filter (λ t, is_Some (mm t) ∧ PF_KTHREAD t = false) (tasks k)))%nat →
  ∃ st',
    proc_show k st = Some (0, st') ∧
    (4095 < length (seq_text (ktrace st')))%nat ∧
    (endpoint_at P 0 = Serves fd (seq_text (ktrace st')) →
     ∃ w,
       main P frames [prog; str "--raw"] boot = Some (Some 0, w) ∧
       stdout_text (trace w) = take 4095 (seq_text (ktrace st')) ∧
       stdout_text (trace w) ≠ seq_text (ktrace st')).
Proof.
  intros Hwf Hcomm Hempty Hmany.
  destruct (client_shows_snapshot P frames prog k st fd Hwf Hcomm Hempty)
    as (st' & Hrun & Hclient).
  exists st'. split; [exact Hrun|].
  assert (4095 < length (seq_text (ktrace st')))%nat as Hlong.
  { pose proof (proc_show_run k st Hwf) as Hshape. rewrite Hrun in Hshape.
    apply (f_equal (λ r, match r with Some (_, s) => ktrace s | None => [] end))
      in Hshape.
    cbn beta iota in Hshape. cbn [ktrace] in Hshape.
    rewrite Hshape, Hempty. cbn [app]. unfold seq_text.
    rewrite !seq_chunks_app, seq_chunks_printf, seq_chunks_tasks.
    rewrite !concat_app, !length_app.
    pose proof (header_length k).
    pose proof (rows_length (entries (heap st) (tasks k))).
    pose proof (Forall2_length _ _ _ (entries_follow_tasks _ _ Hwf)).
    cbn [seq_chunks omap list_omap concat]. rewrite !length_app.
    cbn [length]. rewrite !length_app.
    change (length (str "Total Processes: ")) with 17%nat.
    cbn [length]. lia. }
  split; [exact Hlong|]. intros Hep.
  destruct (Hclient Hep) as (w & Hmain & Hout & _).
  exists w. split; [exact Hmain|]. split; [exact Hout|].
  rewrite Hout. intros Heq. apply (f_equal length) in Heq.
  rewrite length_take in Heq. lia.
Qed.

Lemma a_long_table_is_cut_witness :
  ∃ st',
    proc_show crowded_kernel (bashd_state 1 1 []) = Some (0, st') ∧
    (4095 < length (seq_text (ktrace st')))%nat ∧
    (endpoint_at (serving (seq_text (ktrace st'))) 0 =
       Serves 3 (seq_text (ktrace st')) →
     ∃ w,
       main (serving (seq_text (ktrace st'))) 0
            [str "monitor_app"; str "--raw"] boot = Some (Some 0, w) ∧
       stdout_text (trace w) = take 4095 (seq_text (ktrace st')) ∧
       stdout_text (trace w) ≠ seq_text (ktrace st')).
Proof.
  destruct (a_long_table_is_cut (serving []) 0 (str "monitor_app")
              crowded_kernel (bashd_state 1 1 []) 3)
    as (st' & Hrun & Hlong & _).
  - apply kernel_wf_Forall, Forall_replicate.
    intros q [= <-]. eexists. split; [apply lookup_singleton_eq | done].
  - apply Forall_replicate. by apply nul_free_check.
  - reflexivity.
  - by vm_compute.
  - exists st'. split; [exact Hrun|]. split; [exact Hlong|]. intros _.
    destruct (a_long_table_is_cut (serving (seq_text (ktrace st'))) 0
                (str "monitor_app") crowded_kernel (bashd_state 1 1 []) 3)
      as (st2 & Hrun2 & _ & Hcut).
    + apply kernel_wf_Forall, Forall_replicate.
      intros q [= <-]. eexists. split; [apply lookup_singleton_eq | done].
    + apply Forall_replicate. by apply nul_free_check.
    + reflexivity.
    + by vm_compute.
    + rewrite Hrun in Hrun2. injection Hrun2 as <-. apply Hcut. reflexivity.
Defined.

End long_table.

(** ** The provider: loading and unloading *)

Section lifecycle.
Import kernel_monitor snapshot.

(** X18: [kernel_monitor_init] either registers /proc/kernel_monitor,
    readable and not writable by anybody and without a write callback,
    logs two lines and returns 0; or, when the entry cannot be created
    (no memory, or the name is taken), leaves procfs as it was, logs one
    error line and returns -ENOMEM. *)
Theorem init_registers_or_reports memory s :
  ∃ r s',
    kernel_monitor_init memory s = Some (r, s') ∧
    if memory && bool_decide (procfs s !! PROC_NAME = None) then
      r = 0 ∧
      procfs s' = <[PROC_NAME := monitor_entry]> (procfs s) ∧
      Z.land (pde_mode monitor_entry) S_IWUGO = 0 ∧
      proc_write (pde_ops monitor_entry) = None ∧
      ∃ l1 l2, dmesg s' = dmesg s ++ [(KERN_INFO, l1); (KERN_INFO, l2)]
    else
      r = -12 ∧
      procfs s' = procfs s ∧
      ∃ l, dmesg s' = dmesg s ++ [(KERN_ERR, l)].
Proof.
  unfold kernel_monitor_init. rewrite bind_run. unfold proc_create.
  destruct memory; cbn [andb].
  - destruct (procfs s !! PROC_NAME) as [e|] eqn:Hname.
    + rewrite bool_decide_false by done.
      eexists _, _. split; [reflexivity|]. cbn. eauto.
    + rewrite bool_decide_true by done.
      eexists _, _. split; [reflexivity|]. cbn [procfs dmesg].
      split; [reflexivity|]. split; [reflexivity|].
      split; [reflexivity|]. split; [reflexivity|].
      rewrite <- app_assoc. eauto.
  - eexists _, _. split; [reflexivity|]. cbn. eauto.
Qed.

(** X19: unloading undoes loading: after a successful
    [kernel_monitor_init], [kernel_monitor_exit] leaves procfs exactly as
    it was before the module was loaded; the other entries are never
    touched. *)
Theorem unload_undoes_load s :
  procfs s !! PROC_NAME = None →
  ∃ s1 s2,
    kernel_monitor_init true s = Some (0, s1) ∧
    procfs s1 !! PROC_NAME = Some monitor_entry ∧
    (∀ name, name ≠ PROC_NAME → procfs s1 !! name = procfs s !! name) ∧
    kernel_monitor_exit s1 = Some (tt, s2) ∧
    procfs s2 = procfs s.
Proof.
  intros Hfree. unfold kernel_monitor_init, kernel_monitor_exit.
  rewrite bind_run. unfold proc_create. rewrite Hfree.
  eexists _, _. split; [reflexivity|]. cbn [procfs].
  split; [apply lookup_insert_eq|].
  split; [intros name Hname; by apply lookup_insert_ne|].
  split; [reflexivity|]. cbn [procfs].
  rewrite delete_insert_eq. by apply delete_id.
Qed.

Lemma unload_undoes_load_witness :
  ∃ s1 s2,
    kernel_monitor_init true other_procfs = Some (0, s1) ∧
    procfs s1 !! PROC_NAME = Some monitor_entry ∧
    (∀ name, name ≠ PROC_NAME → procfs s1 !! name = procfs other_procfs !! name) ∧
    kernel_monitor_exit s1 = Some (tt, s2) ∧
    procfs s2 = procfs other_procfs.
Proof.
  apply (unload_undoes_load other_procfs).
  apply lookup_singleton_ne. discriminate.
Defined.

End lifecycle.
